(** * ADM point source panner (AdmPointSourcePanner.cpp)

    A shallow embedding of [CAdmPointSourcePanner]: the constructor,
    [ProcessAccumul] and [divergedPositionsAndGains].

    - C++ [float] and [double] are IEEE 754 binary32 and binary64, modelled
      with the Standard Library's executable specification [SpecFloat]
      (round to nearest even; a NaN carries no payload).
    - [int] and [unsigned int] are integers in [Z]; the casts and the unsigned
      index arithmetic of the source are written out with their wrap-around.
    - [std::vector] is a list; [operator[]] outside the vector, and a read of
      [pIn] outside the samples handed in, is undefined behaviour in C++ and
      makes the model return [None].
    - Every floating-point operation of the source is one correctly rounded
      operation of its type: no excess precision, no fused multiply-add.
    - The collaborators declared in headers that are not part of this file
      (geometry, gain calculator, channel lock, zone exclusion, the equality
      of metadata) are the fields of the class [Externals]: functions of
      their arguments, with no state of their own. *)

From Stdlib Require Import ZArith QArith Lqa List Bool Lia SpecFloat.
From stdpp Require Import base option list.

#[local] Close Scope Q_scope.
#[local] Open Scope Z_scope.

(* ===================================================================== *)
(** * Machine numbers *)
(* ===================================================================== *)

(** ** [int] and [unsigned int] (32 bits) *)

Definition INT_MAX : Z := 2 ^ 31 - 1.
Definition UINT_MOD : Z := 2 ^ 32.

(** [(unsigned int) z]: reduction modulo 2^32. *)
Definition to_unsigned (z : Z) : Z := z mod UINT_MOD.

(** [(int) u] for an [unsigned int] [u]: the value is kept when it fits and
    wraps to a negative number otherwise. *)
Definition to_int (u : Z) : Z :=
  let r := u mod UINT_MOD in if r <=? INT_MAX then r else r - UINT_MOD.

(** ** [float] (binary32) and [double] (binary64) *)

Definition float : Type := spec_float.
Definition double : Type := spec_float.

Module F32.
Definition prec : Z := 24.
Definition emax : Z := 128.
Definition add : float -> float -> float := SFadd prec emax.
Definition sub : float -> float -> float := SFsub prec emax.
Definition mul : float -> float -> float := SFmul prec emax.
Definition div : float -> float -> float := SFdiv prec emax.
Definition zero : float := S754_zero false.
Definition one : float := binary_normalize prec emax 1 0 false.
(** 0.5, that is 2^23 * 2^-24. *)
Definition half : float := S754_finite false 8388608 (-24).
(** [(float) i] for an [int] [i]. *)
Definition of_int (i : Z) : float := binary_normalize prec emax i 0 false.
(** [(float) d] for a [double] [d]: rounding to binary32. *)
Definition of_double (d : double) : float :=
  match d with
  | S754_finite s m e => binary_round prec emax s m e
  | _ => d
  end.
End F32.

Module F64.
Definition prec : Z := 53.
Definition emax : Z := 1024.
Definition add : double -> double -> double := SFadd prec emax.
Definition sub : double -> double -> double := SFsub prec emax.
Definition mul : double -> double -> double := SFmul prec emax.
Definition div : double -> double -> double := SFdiv prec emax.
Definition sqrt : double -> double := SFsqrt prec emax.
Definition opp : double -> double := SFopp.
Definition eqb : double -> double -> bool := SFeqb.
Definition leb : double -> double -> bool := SFleb.
Definition zero : double := S754_zero false.
Definition one : double := binary_normalize prec emax 1 0 false.
(** 0.5, that is 2^52 * 2^-53. *)
Definition half : double := S754_finite false 4503599627370496 (-53).
Definition of_int (i : Z) : double := binary_normalize prec emax i 0 false.
(** A double is a number of the format (not only a term of the type). *)
Definition valid (d : double) : bool := valid_binary prec emax d.
(** The rational a finite double stands for. *)
Definition to_Q (d : double) : option Q :=
  match d with
  | S754_zero _ => Some (inject_Z 0)
  | S754_finite s m e =>
      Some (Qred (Qmult (inject_Z (cond_Zopp s (Zpos m)))
                    (Qpower (inject_Z 2) e)))
  | _ => None
  end.
End F64.

#[global] Arguments F32.add : simpl never.
#[global] Arguments F32.sub : simpl never.
#[global] Arguments F32.mul : simpl never.
#[global] Arguments F32.div : simpl never.
#[global] Arguments F32.of_int : simpl never.
#[global] Arguments F32.of_double : simpl never.
#[global] Arguments F64.add : simpl never.
#[global] Arguments F64.sub : simpl never.
#[global] Arguments F64.mul : simpl never.
#[global] Arguments F64.div : simpl never.
#[global] Arguments F64.sqrt : simpl never.
#[global] Arguments F64.opp : simpl never.
#[global] Arguments F64.eqb : simpl never.

Declare Scope f32_scope.
Delimit Scope f32_scope with f32.
Infix "+" := F32.add : f32_scope.
Infix "-" := F32.sub : f32_scope.
Infix "*" := F32.mul : f32_scope.
Infix "/" := F32.div : f32_scope.

Declare Scope f64_scope.
Delimit Scope f64_scope with f64.
Infix "+" := F64.add : f64_scope.
Infix "-" := F64.sub : f64_scope.
Infix "*" := F64.mul : f64_scope.
Infix "/" := F64.div : f64_scope.
Notation "- x" := (F64.opp x) : f64_scope.

(* ===================================================================== *)
(** * Data model *)
(* ===================================================================== *)

(** The types of the metadata and of the layout are declared in headers
    that are not part of this file.  The records below have the fields the
    source reads, under their names in the source. *)

(** A channel of the loudspeaker layout; the panner reads only [isLFE]. *)
Record Channel := { isLFE : bool }.

Record Layout := { channels : list Channel }.

(** Modelled from the spec: the order of the fields, which the aggregates
    [PolarPosition{...}] and [CartesianPosition{...}] of the source rely on,
    is that of the spec, [{azimuth, elevation, distance}] and [{x, y, z}]. *)
Record PolarPosition :=
  { azimuth : double; elevation : double; distance : double }.

Record CartesianPosition := { x : double; y : double; z : double }.

Record ObjectDivergence := { value : double; azimuthRange : double }.

(** Modelled from the spec: the header declaring [JumpPosition] is not part
    of this file; [interpolationLength] is a number of samples and is
    assigned to [int nInterpSamples] without a cast, so it is an [int]. *)
Record JumpPosition := { flag : bool; interpolationLength : Z }.

(** The metadata of one frame.  The channel-lock and zone-exclusion blocks
    are only handed on to their handlers: their types [CL] and [ZE] are
    parameters. *)
Record ObjectMetadata {CL ZE : Type} := {
  cartesian : bool;
  cartesianPosition : CartesianPosition;
  polarPosition : PolarPosition;
  objectDivergence : ObjectDivergence;
  channelLock : CL;
  zoneExclusionPolar : ZE;
  gain : double;
  diffuse : double;
  jumpPosition : JumpPosition
}.
#[global] Arguments ObjectMetadata : clear implicits.

(** The collaborators of the panner.  [metadata_eq] is [operator==] on
    [ObjectMetadata]; [default_metadata] is a default-constructed
    [ObjectMetadata] (the value of [m_metadata] before the first frame);
    [getRotationMatrix] returns the nine entries it writes, row by row. *)
Class Externals (CL ZE : Type) := {
  metadata_eq : ObjectMetadata CL ZE -> ObjectMetadata CL ZE -> bool;
  default_metadata : ObjectMetadata CL ZE;
  CartesianToPolar : CartesianPosition -> PolarPosition;
  PolarToCartesian : PolarPosition -> CartesianPosition;
  getRotationMatrix : double -> double -> double -> list double;
  getLayoutWithoutLFE : Layout -> Layout;
  CalculateGains : Layout -> PolarPosition -> list double;
  channelLock_handle : Layout -> CL -> PolarPosition -> PolarPosition;
  zoneExclusion_handle : Layout -> ZE -> list double -> list double
}.

(** The state of a panner instance. *)
Record CAdmPointSourcePanner {CL ZE : Type} := {
  m_layout : Layout;
  m_nCh : Z;
  m_gains : list double;
  m_metadata : ObjectMetadata CL ZE;
  m_bFirstFrame : bool
}.
#[global] Arguments CAdmPointSourcePanner : clear implicits.

(** The two output buses, one row of samples per channel of the layout.
    [ppDirect] and [ppDiffuse] are two distinct vectors, and [pIn] does not
    point into them. *)
Record Buses := { ppDirect : list (list float); ppDiffuse : list (list float) }.

(* ===================================================================== *)
(** * Loops *)
(* ===================================================================== *)

(** [for (i = lo; i < hi; ++i) body]: [count] iterations from [i]. *)
Fixpoint for_loop {St : Type} (body : Z -> St -> option St)
    (count : nat) (i : Z) (s : St) : option St :=
  match count with
  | O => Some s
  | S k => match body i s with
           | Some s' => for_loop body k (i + 1) s'
           | None => None
           end
  end.

Definition for_range {St : Type} (lo hi : Z) (body : Z -> St -> option St)
    (s : St) : option St :=
  for_loop body (Z.to_nat (hi - lo)) lo s.

(* ===================================================================== *)
(** * The constructor *)
(* ===================================================================== *)

(** The loop of the constructor: [m_nCh++] for every channel that is not LFE. *)
Fixpoint count_nonLFE (chs : list Channel) (nCh : Z) : Z :=
  match chs with
  | [] => nCh
  | ch :: rest =>
      count_nonLFE rest (if isLFE ch then nCh else to_unsigned (nCh + 1))
  end.

(** Modelled from the spec: [m_bFirstFrame] is initialised in the header,
    which is not part of this file; the spec has it initialised to true.
    The rest is the constructor [CAdmPointSourcePanner(Layout)]: [m_metadata]
    is default-constructed and [m_gains] resized to [m_nCh] zeros. *)
Definition new_panner {CL ZE} `{Externals CL ZE} (targetLayout : Layout)
    : CAdmPointSourcePanner CL ZE :=
  let nCh := count_nonLFE (channels targetLayout) 0 in
  {| m_layout := targetLayout;
     m_nCh := nCh;
     m_gains := replicate (Z.to_nat nCh) F64.zero;
     m_metadata := default_metadata;
     m_bFirstFrame := true |}.

(* ===================================================================== *)
(** * divergedPositionsAndGains *)
(* ===================================================================== *)

(** [directionRotated[i] += rotMat[3 * i + j] * v[j]] for [j = 0, 1, 2],
    from [0.]. *)
Definition rotated_component (rotMat v : list double) (i : nat) : double :=
  fold_left
    (fun acc j => (acc + nth (3 * i + j) rotMat F64.zero * nth j v F64.zero)%f64)
    (seq 0 3) F64.zero.

Definition rotate (rotMat v : list double) : list double :=
  map (rotated_component rotMat v) (seq 0 3).

Section Divergence.
Context {CL ZE : Type} `{Externals CL ZE}.

(** The three local positions: the centre [(d, 0, 0)] and the two sides. *)
Definition cartPositions (divergence : ObjectDivergence) (d : double)
    : list (list double) :=
  let cartesianTmp1 := PolarToCartesian
    {| azimuth := (value divergence * azimuthRange divergence)%f64;
       elevation := F64.zero; distance := d |} in
  let cartesianTmp2 := PolarToCartesian
    {| azimuth := (- value divergence * azimuthRange divergence)%f64;
       elevation := F64.zero; distance := d |} in
  [ [d; F64.zero; F64.zero];
    [y cartesianTmp1; (- x cartesianTmp1)%f64; z cartesianTmp1];
    [y cartesianTmp2; (- x cartesianTmp2)%f64; z cartesianTmp2] ].

Definition divergedPositionsAndGains (divergence : ObjectDivergence)
    (polarDirection : PolarPosition) : list PolarPosition * list double :=
  let x := value divergence in
  let d := distance polarDirection in
  if F64.eqb x F64.zero then ([polarDirection], [F64.one])
  else
    let diverged_gains := replicate 3 F64.zero in
    let diverged_gains :=
      <[0%nat := ((F64.one - x) / (x + F64.one))%f64]> diverged_gains in
    let glr := (x / (x + F64.one))%f64 in
    let diverged_gains := <[1%nat := glr]> diverged_gains in
    let diverged_gains := <[2%nat := glr]> diverged_gains in
    let rotMat :=
      getRotationMatrix (azimuth polarDirection)
        (- elevation polarDirection)%f64 F64.zero in
    let diverged_positions :=
      map (fun cart =>
             let directionRotated := rotate rotMat cart in
             CartesianToPolar
               {| x := (- nth 1 directionRotated F64.zero)%f64;
                  y := nth 0 directionRotated F64.zero;
                  z := nth 2 directionRotated F64.zero |})
          (cartPositions divergence d) in
    (diverged_positions, diverged_gains).
End Divergence.

(* ===================================================================== *)
(** * ProcessAccumul: the target gains *)
(* ===================================================================== *)

(** The inner loop of the power summation for output channel [i]:
    [g_tmp += diverged_gains[j] * gains_for_each_pos[j][i] *
    gains_for_each_pos[j][i]], then [sqrt(g_tmp)]. *)
Definition power_sum_channel (diverged_gains : list double)
    (gains_for_each_pos : list (list double)) (i : Z) : option double :=
  let nDivergedGains := Z.of_nat (length diverged_gains) in
  g_tmp ← for_range 0 nDivergedGains
    (fun j g_tmp =>
       w ← diverged_gains !! Z.to_nat j;
       row ← gains_for_each_pos !! Z.to_nat j;
       g ← row !! Z.to_nat i;
       Some (g_tmp + w * g * g)%f64)
    F64.zero;
  Some (F64.sqrt g_tmp).

(** The outer loop, [for (int i = 0; i < (int)m_nCh; ++i)], writing into
    [std::vector<double> gains(m_nCh)]. *)
Definition power_summation (nCh : Z) (diverged_gains : list double)
    (gains_for_each_pos : list (list double)) : option (list double) :=
  for_range 0 (to_int nCh)
    (fun i gains =>
       g ← power_sum_channel diverged_gains gains_for_each_pos i;
       Some (<[Z.to_nat i := g]> gains))
    (replicate (Z.to_nat nCh) F64.zero).

(** The power summation as a formula: the square root of the sum, over the
    diverged sources in order, of weight times squared gain of channel [i]. *)
Definition power_sum_formula (weights : list double)
    (gains_for_each_pos : list (list double)) (i : nat) : double :=
  F64.sqrt
    (fold_left
       (fun acc wg =>
          (acc + fst wg * nth i (snd wg) F64.zero * nth i (snd wg) F64.zero)%f64)
       (zip weights gains_for_each_pos) F64.zero).

(** The linear sum of the weighted gains, which the code does not compute. *)
Definition linear_sum_formula (weights : list double)
    (gains_for_each_pos : list (list double)) (i : nat) : double :=
  fold_left
    (fun acc wg => (acc + fst wg * nth i (snd wg) F64.zero)%f64)
    (zip weights gains_for_each_pos) F64.zero.

Section TargetGains.
Context {CL ZE : Type} `{Externals CL ZE}.

(** The panning direction after the channel lock (lines 47 to 63). *)
Definition frame_direction (st : CAdmPointSourcePanner CL ZE)
    (metadata : ObjectMetadata CL ZE) : PolarPosition :=
  let direction :=
    if cartesian metadata then CartesianToPolar (cartesianPosition metadata)
    else polarPosition metadata in
  channelLock_handle (m_layout st) (channelLock metadata) direction.

(** [diverged_gains] and [gains_for_each_pos] (lines 66 to 74). *)
Definition frame_diverged_gains (st : CAdmPointSourcePanner CL ZE)
    (metadata : ObjectMetadata CL ZE) : list double :=
  snd (divergedPositionsAndGains (objectDivergence metadata)
         (frame_direction st metadata)).

Definition frame_gains_for_each_pos (st : CAdmPointSourcePanner CL ZE)
    (metadata : ObjectMetadata CL ZE) : list (list double) :=
  map (CalculateGains (getLayoutWithoutLFE (m_layout st)))
    (fst (divergedPositionsAndGains (objectDivergence metadata)
            (frame_direction st metadata))).

(** The gains handed to the zone exclusion (lines 47 to 83). *)
Definition power_summed_gains (st : CAdmPointSourcePanner CL ZE)
    (metadata : ObjectMetadata CL ZE) : option (list double) :=
  power_summation (m_nCh st) (frame_diverged_gains st metadata)
    (frame_gains_for_each_pos st metadata).

(** The branch taken when the metadata changed, up to the overall gain
    (lines 47 to 91). *)
Definition recomputed_gains (st : CAdmPointSourcePanner CL ZE)
    (metadata : ObjectMetadata CL ZE) : option (list double) :=
  gains ← power_summed_gains st metadata;
  let gains :=
    zoneExclusion_handle (m_layout st) (zoneExclusionPolar metadata) gains in
  Some (map (fun g => (g * gain metadata)%f64) gains).

(** The locals [gains] and [nInterpSamples] when the channel loop starts
    (lines 41 to 102). *)
Definition frame_gains (st : CAdmPointSourcePanner CL ZE)
    (metadata : ObjectMetadata CL ZE) : option (list double * Z) :=
  if negb (metadata_eq metadata (m_metadata st)) then
    gains ← recomputed_gains st metadata;
    Some (gains,
          if flag (jumpPosition metadata) && negb (m_bFirstFrame st)
          then interpolationLength (jumpPosition metadata) else 0)
  else Some (m_gains st, 0).
End TargetGains.

(* ===================================================================== *)
(** * ProcessAccumul: applying the gains *)
(* ===================================================================== *)

Definition directCoefficient (diffuseness : double) : float :=
  F32.of_double (F64.sqrt (F64.one - diffuseness)%f64).

Definition diffuseCoefficient (diffuseness : double) : float :=
  F32.of_double (F64.sqrt diffuseness).

(** [float deltaCoeff = 1.f / ((float)nInterpSamples)] (line 115). *)
Definition deltaCoeff (nInterpSamples : Z) : float :=
  (F32.one / F32.of_int nInterpSamples)%f32.

(** The gain in parentheses on line 120. *)
Definition interpolated_gain (delta : float) (iSample : Z)
    (g g_prev : double) : float :=
  let fInterp := (F32.of_int iSample * delta)%f32 in
  (fInterp * F32.of_double g + (F32.one - fInterp) * F32.of_double g_prev)%f32.

(** [pIn[iSample]], where [pIn] points to the samples of the list. *)
Definition read_sample (pIn : list float) (iSample : Z) : option float :=
  if iSample <? 0 then None else pIn !! Z.to_nat iSample.

(** [pp[i][k] += v]. *)
Definition accumulate (pp : list (list float)) (i : nat) (k : Z) (v : float)
    : option (list (list float)) :=
  row ← pp !! i;
  old ← row !! Z.to_nat k;
  Some (<[i := <[Z.to_nat k := (old + v)%f32]> row]> pp).

Section ChannelLoop.
(** What the channel loop reads: the locals and arguments of
    [ProcessAccumul], and the member [m_gains] ([prev_gains]). *)
Variables (gains prev_gains : list double) (pIn : list float).
Variables (nInterpSamples nSamples nOffset : Z).
Variables (directCoeff diffuseCoeff : float).

(** [sampleData] of the first loop (line 120). *)
Definition interp_sampleData (delta : float) (iCh : nat) (iSample : Z)
    : option float :=
  s ← read_sample pIn iSample;
  g ← gains !! iCh;
  g_prev ← prev_gains !! iCh;
  Some (s * interpolated_gain delta iSample g g_prev)%f32.

(** [sampleData] of the second loop (line 126). *)
Definition plain_sampleData (iCh : nat) (iSample : Z) : option float :=
  s ← read_sample pIn iSample;
  g ← gains !! iCh;
  Some (s * F32.of_double g)%f32.

(** The two accumulations that end both loop bodies; [iSample + nOffset]
    is an [unsigned int]. *)
Definition add_sample (i : nat) (iSample : Z) (sampleData : option float)
    (out : Buses) : option Buses :=
  sampleData ← sampleData;
  let k := to_unsigned (iSample + nOffset) in
  direct ← accumulate (ppDirect out) i k (sampleData * directCoeff)%f32;
  diffuse ← accumulate (ppDiffuse out) i k (sampleData * diffuseCoeff)%f32;
  Some {| ppDirect := direct; ppDiffuse := diffuse |}.

(** The loops of lines 117 and 124, for a given [deltaCoeff]. *)
Definition sample_loops (delta : float) (i iCh : nat) (out : Buses)
    : option Buses :=
  out ← for_range 0 nInterpSamples
    (fun iSample => add_sample i iSample (interp_sampleData delta iCh iSample))
    out;
  for_range nInterpSamples (to_int nSamples)
    (fun iSample => add_sample i iSample (plain_sampleData iCh iSample))
    out.

(** The body of the channel loop for a channel that is not LFE
    (lines 115 to 129). *)
Definition process_channel (i iCh : nat) (out : Buses) : option Buses :=
  sample_loops (deltaCoeff nInterpSamples) i iCh out.

(** The channel loop (lines 109 to 132), at output channel [i] with gain
    index [iCh], over the channels that are left. *)
Fixpoint channel_loop (chs : list Channel) (i iCh : nat) (out : Buses)
    : option Buses :=
  match chs with
  | [] => Some out
  | ch :: rest =>
      if isLFE ch then channel_loop rest (S i) iCh out
      else
        out ← process_channel i iCh out;
        channel_loop rest (S i) (S iCh) out
  end.

(** The float divisions the channel loop executes, as (dividend, divisor):
    line 115 is outside the sample loops and runs once for every channel
    that is not LFE. *)
Fixpoint channel_loop_divisions (chs : list Channel) : list (float * float) :=
  match chs with
  | [] => []
  | ch :: rest =>
      if isLFE ch then channel_loop_divisions rest
      else (F32.one, F32.of_int nInterpSamples) :: channel_loop_divisions rest
  end.
End ChannelLoop.

Section ProcessAccumul.
Context {CL ZE : Type} `{Externals CL ZE}.

Definition ProcessAccumul (st : CAdmPointSourcePanner CL ZE)
    (metadata : ObjectMetadata CL ZE) (pIn : list float) (out : Buses)
    (nSamples nOffset : Z) : option (CAdmPointSourcePanner CL ZE * Buses) :=
  '(gains, nInterpSamples) ← frame_gains st metadata;
  out ← channel_loop gains (m_gains st) pIn nInterpSamples nSamples nOffset
          (directCoefficient (diffuse metadata))
          (diffuseCoefficient (diffuse metadata))
          (channels (m_layout st)) 0 0 out;
  Some ({| m_layout := m_layout st;
           m_nCh := m_nCh st;
           m_gains := gains;
           m_metadata := metadata;
           m_bFirstFrame := false |}, out).

(** The divisions of one call (see [channel_loop_divisions]). *)
Definition ProcessAccumul_divisions (st : CAdmPointSourcePanner CL ZE)
    (metadata : ObjectMetadata CL ZE) : option (list (float * float)) :=
  '(_, nInterpSamples) ← frame_gains st metadata;
  Some (channel_loop_divisions nInterpSamples (channels (m_layout st))).

(** A sequence of calls on one instance, each with its own buffers. *)
Record Frame := {
  fr_metadata : ObjectMetadata CL ZE;
  fr_pIn : list float;
  fr_out : Buses;
  fr_nSamples : Z;
  fr_nOffset : Z
}.

Fixpoint run (st : CAdmPointSourcePanner CL ZE) (frames : list Frame)
    : option (CAdmPointSourcePanner CL ZE) :=
  match frames with
  | [] => Some st
  | fr :: rest =>
      match ProcessAccumul st (fr_metadata fr) (fr_pIn fr) (fr_out fr)
              (fr_nSamples fr) (fr_nOffset fr) with
      | Some (st', _) => run st' rest
      | None => None
      end
  end.
End ProcessAccumul.

(* ===================================================================== *)
(** * A concrete panner *)
(* ===================================================================== *)

(** Stand-ins for the collaborators, simple enough to follow by hand, on
    which the theorems below are instantiated. *)
Module Fixture.
Definition position_eq (p q : PolarPosition) : bool :=
  F64.eqb (azimuth p) (azimuth q) && F64.eqb (elevation p) (elevation q)
  && F64.eqb (distance p) (distance q).

Definition cartesian_eq (p q : CartesianPosition) : bool :=
  F64.eqb (x p) (x q) && F64.eqb (y p) (y q) && F64.eqb (z p) (z q).

(** Field by field, with [==] of [double] on the numbers. *)
Definition metadata_eqb (a b : ObjectMetadata unit unit) : bool :=
  Bool.eqb (cartesian a) (cartesian b)
  && cartesian_eq (cartesianPosition a) (cartesianPosition b)
  && position_eq (polarPosition a) (polarPosition b)
  && F64.eqb (value (objectDivergence a)) (value (objectDivergence b))
  && F64.eqb (azimuthRange (objectDivergence a))
       (azimuthRange (objectDivergence b))
  && F64.eqb (gain a) (gain b)
  && F64.eqb (diffuse a) (diffuse b)
  && Bool.eqb (flag (jumpPosition a)) (flag (jumpPosition b))
  && (interpolationLength (jumpPosition a)
      =? interpolationLength (jumpPosition b)).

(** A source at azimuth [az] (degrees), on the unit sphere. *)
Definition source (az : Z) (jump : bool) (len : Z) : ObjectMetadata unit unit :=
  {| cartesian := false;
     cartesianPosition :=
       {| x := F64.zero; y := F64.one; z := F64.zero |};
     polarPosition :=
       {| azimuth := F64.of_int az; elevation := F64.zero;
          distance := F64.one |};
     objectDivergence :=
       {| value := F64.zero; azimuthRange := F64.of_int 45 |};
     channelLock := tt;
     zoneExclusionPolar := tt;
     gain := F64.one;
     diffuse := F64.zero;
     jumpPosition := {| flag := jump; interpolationLength := len |} |}.

(** The gain calculator of a stereo pair: all of the signal to the first
    loudspeaker for a source on the left (positive azimuth), to the second
    for a source on the right, and to both for a source in front. *)
Definition stereo_gains (p : PolarPosition) : list double :=
  if SFltb F64.zero (azimuth p) then [F64.one; F64.zero]
  else if SFltb (azimuth p) F64.zero then [F64.zero; F64.one]
  else [F64.one; F64.one].

#[global] Instance externals : Externals unit unit := {|
  metadata_eq := metadata_eqb;
  default_metadata := source 0 false 0;
  CartesianToPolar c :=
    {| azimuth := x c; elevation := y c; distance := z c |};
  PolarToCartesian p :=
    {| x := azimuth p; y := elevation p; z := distance p |};
  getRotationMatrix _ _ _ :=
    [F64.one; F64.zero; F64.zero;
     F64.zero; F64.one; F64.zero;
     F64.zero; F64.zero; F64.one];
  getLayoutWithoutLFE l :=
    {| channels := List.filter (fun ch => negb (isLFE ch)) (channels l) |};
  CalculateGains _ p := stereo_gains p;
  channelLock_handle _ _ p := p;
  zoneExclusion_handle _ _ g := g
|}.

Definition speaker : Channel := {| isLFE := false |}.
Definition subwoofer : Channel := {| isLFE := true |}.

(** Left, right. *)
Definition stereo : Layout := {| channels := [speaker; speaker] |}.
(** Left, LFE, right. *)
Definition stereo_lfe : Layout :=
  {| channels := [speaker; subwoofer; speaker] |}.

Definition silence (nChannels nSlots : nat) : Buses :=
  {| ppDirect := replicate nChannels (replicate nSlots F32.zero);
     ppDiffuse := replicate nChannels (replicate nSlots F32.zero) |}.

(** The double nearest to 0.64. *)
Definition f64_0_64 : double := S754_finite false 5764607523034235 (-53).

(** An instance that has processed one frame, a source on the right:
    its gains are [0, 1]. *)
Definition after_right (l : Layout) : option (CAdmPointSourcePanner unit unit) :=
  run (new_panner l)
    [ {| fr_metadata := source (-30) false 0; fr_pIn := [];
         fr_out := silence 0 0; fr_nSamples := 0; fr_nOffset := 0 |} ].
End Fixture.

(** Sums of the weights of a divergence, in [double] and exactly. *)
Definition sum_f64 (l : list double) : double := fold_left F64.add l F64.zero.

Definition sum_Q (l : list double) : option Q :=
  fold_left (fun acc d => match acc, F64.to_Q d with
                          | Some a, Some q => Some (Qred (Qplus a q))
                          | _, _ => None
                          end) l (Some (inject_Z 0)).

(** The arithmetic in which the weights of a divergence are computed. *)
Record Arithmetic (A : Type) := {
  ar_one : A;
  ar_add : A -> A -> A;
  ar_sub : A -> A -> A;
  ar_div : A -> A -> A
}.
#[global] Arguments ar_one {A}.
#[global] Arguments ar_add {A}.
#[global] Arguments ar_sub {A}.
#[global] Arguments ar_div {A}.

(** The vector [diverged_gains] of lines 155 to 159, over any arithmetic. *)
Definition divergence_weights {A : Type} (ar : Arithmetic A) (x : A) : list A :=
  let centre :=
    ar_div ar (ar_sub ar (ar_one ar) x) (ar_add ar x (ar_one ar)) in
  let glr := ar_div ar x (ar_add ar x (ar_one ar)) in
  [centre; glr; glr].

(** The arithmetic of the code, and that of the rational numbers. *)
Definition double_arithmetic : Arithmetic double :=
  {| ar_one := F64.one; ar_add := F64.add; ar_sub := F64.sub;
     ar_div := F64.div |}.

Definition exact_arithmetic : Arithmetic Q :=
  {| ar_one := Qmake 1 1; ar_add := Qplus; ar_sub := Qminus; ar_div := Qdiv |}.

(* ===================================================================== *)
(** * What a call adds to the buses *)
(* ===================================================================== *)

(** The integer side of a call: [nSamples] survives the cast to [int], and
    no index [iSample + nOffset] of the two loops wraps around. *)
Definition no_wrap (nInterpSamples nSamples nOffset : Z) : Prop :=
  0 <= nOffset /\ 0 <= nSamples <= INT_MAX
  /\ nOffset + Z.max nInterpSamples nSamples <= UINT_MOD.

(** The gain applied to the input at sample index [s]: interpolated in the
    first loop, the target gain in the second. *)
Definition effective_gain (interpSamples s : Z) (g0 g1 : double) : float :=
  if s <? interpSamples
  then interpolated_gain (deltaCoeff interpSamples) s g1 g0
  else F32.of_double g1.

(** A bus with a row of [slots] samples for each of [nChannels] channels. *)
Definition bus_sized (pp : list (list float)) (nChannels : nat) (slots : Z)
    : Prop :=
  length pp = nChannels
  /\ forall c row, pp !! c = Some row -> Z.of_nat (length row) = slots.

(** Slot [k] of a row after [c iSample] was added at slot [iSample + off]
    for every [lo <= iSample < hi]. *)
Definition window (lo hi off : Z) (c : Z -> float) (k : nat) (old : float)
    : float :=
  if (lo + off <=? Z.of_nat k) && (Z.of_nat k <? hi + off)
  then (old + c (Z.of_nat k - off)%Z)%f32 else old.

(** The index into the gain vectors at output channel [i]: the number of
    channels before [i] that are not LFE. *)
Definition gain_index (chs : list Channel) (i : nat) : nat :=
  length (List.filter (fun ch => negb (isLFE ch)) (take i chs)).

Section RowAfter.
Variables (gains prev_gains : list double) (pIn : list float).
Variables (nInterpSamples nSamples nOffset : Z).
Variable (coeff : float).

(** What the first and the second loop add at [iSample], on the bus with
    coefficient [coeff], for gain index [iCh]. *)
Definition interp_contribution (iCh : nat) (iSample : Z) : float :=
  (default F32.zero
     (interp_sampleData gains prev_gains pIn (deltaCoeff nInterpSamples)
        iCh iSample) * coeff)%f32.

Definition plain_contribution (iCh : nat) (iSample : Z) : float :=
  (default F32.zero (plain_sampleData gains pIn iCh iSample) * coeff)%f32.

(** A row of a channel that is not LFE after the two loops. *)
Definition row_after (iCh : nat) (row : list float) : list float :=
  imap (window nInterpSamples (to_int nSamples) nOffset
          (plain_contribution iCh))
    (imap (window 0 nInterpSamples nOffset (interp_contribution iCh)) row).

(** Row [c] of a bus after the channel loop over [chs], which starts with
    gain index [iCh0] at the first channel of [chs]. *)
Definition channel_row_after (chs : list Channel) (iCh0 c : nat)
    (row : list float) : list float :=
  match chs !! c with
  | Some ch =>
      if isLFE ch then row else row_after (iCh0 + gain_index chs c) row
  | None => row
  end.

(** What the call adds to slot [k] of a row with gain index [iCh], if
    anything; and to slot [k] of row [c] of a bus. *)
Definition slot_contribution (iCh k : nat) : option float :=
  let iSample := Z.of_nat k - nOffset in
  if (0 <=? iSample) && (iSample <? nInterpSamples)
  then Some (interp_contribution iCh iSample)
  else if (nInterpSamples <=? iSample) && (iSample <? to_int nSamples)
  then Some (plain_contribution iCh iSample)
  else None.

Definition channel_slot_contribution (chs : list Channel) (c k : nat)
    : option float :=
  match chs !! c with
  | Some ch => if isLFE ch then None else slot_contribution (gain_index chs c) k
  | None => None
  end.
End RowAfter.

(* ===================================================================== *)
(** * Sequences of frames *)
(* ===================================================================== *)

(** The number of channels of a layout that are not LFE. *)
Definition nonLFE_count (chs : list Channel) : nat :=
  length (List.filter (fun ch => negb (isLFE ch)) chs).

Section Unchanged.
Context {CL ZE : Type} `{Externals CL ZE}.

(** The metadata of every frame compares equal to the metadata of the frame
    before it, and that of the first frame to [cached]: the test of line 45
    fails in every call. *)
Fixpoint metadata_unchanged (cached : ObjectMetadata CL ZE)
    (frames : list Frame) : bool :=
  match frames with
  | [] => true
  | fr :: rest =>
      metadata_eq (fr_metadata fr) cached
      && metadata_unchanged (fr_metadata fr) rest
  end.

(** What a frame needs from its caller: an interpolation length that is not
    negative, and, with [m] the larger of that length and [nSamples], [m]
    input samples, a row of [nOffset + m] slots or more for every channel of
    the layout on both buses, and no wrap of the integers. *)
Definition frame_in_contract (chs : list Channel)
    (fr : Frame (CL:=CL) (ZE:=ZE)) : Prop :=
  let len := interpolationLength (jumpPosition (fr_metadata fr)) in
  let m := Z.max len (fr_nSamples fr) in
  0 <= len
  /\ no_wrap len (fr_nSamples fr) (fr_nOffset fr)
  /\ m <= Z.of_nat (length (fr_pIn fr))
  /\ forall c, (c < length chs)%nat ->
       exists rowD rowF,
         ppDirect (fr_out fr) !! c = Some rowD
         /\ ppDiffuse (fr_out fr) !! c = Some rowF
         /\ m + fr_nOffset fr <= Z.of_nat (length rowD)
         /\ m + fr_nOffset fr <= Z.of_nat (length rowF).
End Unchanged.

(** A slot after a call that contributes [v] to it, or nothing. *)
Definition add_contribution (old : float) (v : option float) : float :=
  match v with
  | Some v => (old + v)%f32
  | None => old
  end.

(** The metadata [metadata] with another diffuseness, and with another
    divergence value. *)
Definition with_diffuse {CL ZE : Type} (d : double)
    (metadata : ObjectMetadata CL ZE) : ObjectMetadata CL ZE :=
  {| cartesian := cartesian metadata;
     cartesianPosition := cartesianPosition metadata;
     polarPosition := polarPosition metadata;
     objectDivergence := objectDivergence metadata;
     channelLock := channelLock metadata;
     zoneExclusionPolar := zoneExclusionPolar metadata;
     gain := gain metadata;
     diffuse := d;
     jumpPosition := jumpPosition metadata |}.

Definition with_divergence {CL ZE : Type} (v : double)
    (metadata : ObjectMetadata CL ZE) : ObjectMetadata CL ZE :=
  {| cartesian := cartesian metadata;
     cartesianPosition := cartesianPosition metadata;
     polarPosition := polarPosition metadata;
     objectDivergence :=
       {| value := v;
          azimuthRange := azimuthRange (objectDivergence metadata) |};
     channelLock := channelLock metadata;
     zoneExclusionPolar := zoneExclusionPolar metadata;
     gain := gain metadata;
     diffuse := diffuse metadata;
     jumpPosition := jumpPosition metadata |}.

(* ===================================================================== *)
(** * Loops: invariants *)
(* ===================================================================== *)

(** The constants are the numbers they are named after. *)
Example float_constants :
  (F32.one / F32.of_int 2)%f32 = F32.half
  /\ (F64.one / F64.of_int 2)%f64 = F64.half
  /\ (F64.of_int 64 / F64.of_int 100)%f64 = Fixture.f64_0_64
  /\ F64.to_Q F64.half = Some (Qmake 1 2)
  /\ F32.of_double F64.half = F32.half
  /\ F64.sqrt (F64.of_int 4) = F64.of_int 2.
Proof. repeat split; vm_compute; reflexivity. Qed.

Lemma to_int_small (u : Z) : 0 <= u <= INT_MAX -> to_int u = u.
Proof.
  intros Hu. unfold to_int, UINT_MOD, INT_MAX in *.
  rewrite Z.mod_small by lia.
  destruct (Z.leb_spec u (2 ^ 31 - 1)); lia.
Qed.

Lemma to_unsigned_small (u : Z) : 0 <= u < UINT_MOD -> to_unsigned u = u.
Proof. intros Hu. unfold to_unsigned. now apply Z.mod_small. Qed.

(** Partial correctness: an invariant kept by every iteration that returns
    holds when the loop returns. *)
Lemma for_loop_invariant {St : Type} (P : Z -> St -> Prop)
    (body : Z -> St -> option St) (count : nat) :
  forall (i : Z) (s s' : St),
    for_loop body count i s = Some s' ->
    P i s ->
    (forall j t t', i <= j < i + Z.of_nat count ->
       P j t -> body j t = Some t' -> P (j + 1) t') ->
    P (i + Z.of_nat count) s'.
Proof.
  induction count as [|k IH]; intros i s s' Hrun Hinit Hstep; simpl in Hrun.
  - injection Hrun as <-. now replace (i + Z.of_nat 0) with i by lia.
  - destruct (body i s) as [s1|] eqn:Hbody; [|discriminate].
    replace (i + Z.of_nat (S k)) with (i + 1 + Z.of_nat k) by lia.
    apply (IH (i + 1) s1 s' Hrun).
    + apply (Hstep i s s1); [lia | assumption | assumption].
    + intros j t t' Hj. apply Hstep. lia.
Qed.

(** Total correctness: when every iteration returns from a state of the
    invariant, so does the loop. *)
Lemma for_loop_progress {St : Type} (P : Z -> St -> Prop)
    (body : Z -> St -> option St) (count : nat) :
  forall (i : Z) (s : St),
    P i s ->
    (forall j t, i <= j < i + Z.of_nat count -> P j t ->
       exists t', body j t = Some t' /\ P (j + 1) t') ->
    exists s', for_loop body count i s = Some s' /\ P (i + Z.of_nat count) s'.
Proof.
  induction count as [|k IH]; intros i s Hinit Hstep; simpl.
  - exists s. split; [reflexivity|]. now replace (i + Z.of_nat 0) with i by lia.
  - destruct (Hstep i s) as (s1 & Hbody & Hs1); [lia | assumption |].
    rewrite Hbody.
    replace (i + Z.of_nat (S k)) with (i + 1 + Z.of_nat k) by lia.
    apply IH; [assumption|].
    intros j t Hj. apply Hstep. lia.
Qed.

(** A loop that returns has had its first iteration return. *)
Lemma for_range_first {St : Type} (lo hi : Z) (body : Z -> St -> option St)
    (s s' : St) :
  for_range lo hi body s = Some s' -> lo < hi -> is_Some (body lo s).
Proof.
  unfold for_range. intros Hrun Hlt.
  destruct (Z.to_nat (hi - lo)) as [|k] eqn:Hk; [lia|].
  simpl in Hrun. destruct (body lo s); [eauto | discriminate].
Qed.

Lemma for_range_empty {St : Type} (lo hi : Z) (body : Z -> St -> option St)
    (s : St) :
  hi <= lo -> for_range lo hi body s = Some s.
Proof.
  intros Hle. unfold for_range.
  now replace (Z.to_nat (hi - lo)) with 0%nat by lia.
Qed.

(* ===================================================================== *)
(** * The divergence splitter *)
(* ===================================================================== *)

(** C6. For every polar direction [p] and every divergence whose value
    compares equal to zero ([x == 0.]), [divergedPositionsAndGains] returns
    the single position [p], unchanged, with the single weight [1.0]. *)
Theorem C6_no_divergence_identity {CL ZE : Type} `{Externals CL ZE}
    (divergence : ObjectDivergence) (p : PolarPosition) :
  F64.eqb (value divergence) F64.zero = true ->
  divergedPositionsAndGains divergence p = ([p], [F64.one]).
Proof.
  intros Hzero. unfold divergedPositionsAndGains. now rewrite Hzero.
Qed.

Lemma C6_no_divergence_identity_witness :
  let divergence := {| value := F64.zero; azimuthRange := F64.of_int 45 |} in
  let p := polarPosition (Fixture.source 30 false 0) in
  F64.eqb (value divergence) F64.zero = true /\
  divergedPositionsAndGains divergence p = ([p], [F64.one]).
Proof.
  split; [reflexivity|].
  apply C6_no_divergence_identity. reflexivity.
Defined.

(** C5 fails as it is stated: at the divergence value 0.64 the three weights
    the code returns do not sum to 1, neither added in [double] (in list
    order, or as centre plus twice the side) nor as exact rationals. *)
Lemma C5_sum_not_exactly_one :
  let xv := Fixture.f64_0_64 in
  let weights :=
    snd (divergedPositionsAndGains
           {| value := xv; azimuthRange := F64.of_int 45 |}
           (polarPosition (Fixture.source 30 false 0))) in
  F64.valid xv = true /\
  F64.leb F64.zero xv = true /\ F64.leb xv F64.one = true /\
  F64.eqb xv F64.zero = false /\
  weights = [((F64.one - xv) / (xv + F64.one))%f64;
             (xv / (xv + F64.one))%f64; (xv / (xv + F64.one))%f64] /\
  F64.eqb (sum_f64 weights) F64.one = false /\
  F64.eqb (nth 0 weights F64.zero + F64.of_int 2 * nth 1 weights F64.zero)%f64
    F64.one = false /\
  sum_Q weights = Some (Qmake 9007199254740991 9007199254740992).
Proof. vm_compute. repeat split; reflexivity. Qed.

(** C5, amended. For every divergence value [x] with [x != 0] (so for every
    [x] in (0, 1]) [divergedPositionsAndGains] returns three positions and
    exactly the three weights [centre, side, side] with
    [centre = (1 - x) / (x + 1)] and [side = x / (x + 1)], each evaluated in
    [double].  In exact arithmetic the three formulas sum to exactly 1 for
    every [x >= 0]; the doubles returned do so at [x == 1], where the same
    code, with no special case, gives the weights [0, 0.5, 0.5]. *)
Theorem C5_divergence_weights {CL ZE : Type} `{Externals CL ZE}
    (divergence : ObjectDivergence) (p : PolarPosition) :
  F64.eqb (value divergence) F64.zero = false ->
  snd (divergedPositionsAndGains divergence p)
  = [((F64.one - value divergence) / (value divergence + F64.one))%f64;
     (value divergence / (value divergence + F64.one))%f64;
     (value divergence / (value divergence + F64.one))%f64]
  /\ snd (divergedPositionsAndGains divergence p)
     = divergence_weights double_arithmetic (value divergence)
  /\ length (fst (divergedPositionsAndGains divergence p)) = 3%nat
  /\ (forall q : Q,
        Qle (Qmake 0 1) q ->
        Qeq (fold_left Qplus (divergence_weights exact_arithmetic q)
               (Qmake 0 1))
          (Qmake 1 1))
  /\ (forall (range : double),
        let weights :=
          snd (divergedPositionsAndGains
                 {| value := F64.one; azimuthRange := range |} p) in
        weights = [F64.zero; F64.half; F64.half]
        /\ sum_f64 weights = F64.one
        /\ sum_Q weights = Some (Qmake 1 1)).
Proof.
  intros Hne. unfold divergedPositionsAndGains. rewrite Hne.
  split; [reflexivity|]. split; [reflexivity|]. split; [reflexivity|].
  split.
  - intros q Hq. unfold divergence_weights. simpl. field. lra.
  - intros range. simpl value.
    assert (Hone : F64.eqb F64.one F64.zero = false) by reflexivity.
    rewrite Hone. cbn [snd]. repeat split; vm_compute; reflexivity.
Qed.

Lemma C5_divergence_weights_witness :
  let divergence :=
    {| value := Fixture.f64_0_64; azimuthRange := F64.of_int 45 |} in
  let p := polarPosition (Fixture.source 30 false 0) in
  F64.eqb (value divergence) F64.zero = false /\
  snd (divergedPositionsAndGains divergence p)
  = [S754_finite false 7908760321235992 (-55);
     S754_finite false 7030009174431993 (-54);
     S754_finite false 7030009174431993 (-54)].
Proof.
  split; [reflexivity|].
  exact (proj1 (C5_divergence_weights
                  {| value := Fixture.f64_0_64; azimuthRange := F64.of_int 45 |}
                  (polarPosition (Fixture.source 30 false 0)) eq_refl)).
Defined.

(* ===================================================================== *)
(** * The state of the panner *)
(* ===================================================================== *)

Section StateLemmas.
Context {CL ZE : Type} `{Externals CL ZE}.

Lemma ProcessAccumul_inv (st st' : CAdmPointSourcePanner CL ZE)
    (metadata : ObjectMetadata CL ZE) (pIn : list float) (out out' : Buses)
    (nSamples nOffset : Z) :
  ProcessAccumul st metadata pIn out nSamples nOffset = Some (st', out') ->
  exists gains nInterpSamples,
    frame_gains st metadata = Some (gains, nInterpSamples)
    /\ channel_loop gains (m_gains st) pIn nInterpSamples nSamples nOffset
         (directCoefficient (diffuse metadata))
         (diffuseCoefficient (diffuse metadata))
         (channels (m_layout st)) 0 0 out = Some out'
    /\ st' = {| m_layout := m_layout st; m_nCh := m_nCh st; m_gains := gains;
                m_metadata := metadata; m_bFirstFrame := false |}.
Proof.
  unfold ProcessAccumul. intros Hrun.
  destruct (frame_gains st metadata) as [[gains n]|]; [|discriminate].
  simpl in Hrun.
  destruct (channel_loop _ _ _ _ _ _ _ _ _ _ _ _) as [out1|] eqn:Hloop;
    [|discriminate].
  simpl in Hrun. injection Hrun as <- <-.
  exists gains, n. repeat split. exact Hloop.
Qed.

Lemma frame_gains_inv (st : CAdmPointSourcePanner CL ZE)
    (metadata : ObjectMetadata CL ZE) (gains : list double) (n : Z) :
  frame_gains st metadata = Some (gains, n) ->
  (metadata_eq metadata (m_metadata st) = false
   /\ recomputed_gains st metadata = Some gains
   /\ n = (if flag (jumpPosition metadata) && negb (m_bFirstFrame st)
           then interpolationLength (jumpPosition metadata) else 0))
  \/ (metadata_eq metadata (m_metadata st) = true
      /\ gains = m_gains st /\ n = 0).
Proof.
  unfold frame_gains.
  destruct (metadata_eq metadata (m_metadata st)); simpl; intros Hfg.
  - right. injection Hfg as <- <-. auto.
  - left. destruct (recomputed_gains st metadata); [|discriminate].
    simpl in Hfg. injection Hfg as <- <-. auto.
Qed.

Lemma run_snoc (st : CAdmPointSourcePanner CL ZE) (frames : list Frame)
    (fr : Frame) :
  run st (frames ++ [fr])
  = match run st frames with
    | Some st1 =>
        match ProcessAccumul st1 (fr_metadata fr) (fr_pIn fr) (fr_out fr)
                (fr_nSamples fr) (fr_nOffset fr) with
        | Some (st2, _) => Some st2
        | None => None
        end
    | None => None
    end.
Proof.
  revert st. induction frames as [|f rest IH]; intros st; simpl.
  - destruct (ProcessAccumul _ _ _ _ _ _) as [[st2 out2]|]; reflexivity.
  - destruct (ProcessAccumul st _ _ _ _ _) as [[st1 out1]|]; [apply IH|reflexivity].
Qed.

(** [m_bFirstFrame] is true exactly as long as no frame was processed. *)
Lemma run_first_frame (st0 st : CAdmPointSourcePanner CL ZE)
    (frames : list Frame) :
  run st0 frames = Some st ->
  m_bFirstFrame st
  = match frames with [] => m_bFirstFrame st0 | _ :: _ => false end.
Proof.
  revert st0. induction frames as [|f rest IH]; intros st0; simpl.
  - now intros [= <-].
  - destruct (ProcessAccumul st0 _ _ _ _ _) as [[st1 out1]|] eqn:Hcall;
      [|discriminate].
    intros Hrest. rewrite (IH st1 Hrest).
    apply ProcessAccumul_inv in Hcall as (g & n & _ & _ & ->).
    now destruct rest.
Qed.


End StateLemmas.

(** C4 fails as it is stated: on an instance that has processed a frame, a
    frame with new metadata, [jumpPosition.flag] false and
    [interpolationLength] 0 gets the interpolation length 0, which equals
    [interpolationLength] although the flag is false. *)
Lemma C4_equal_without_jump :
  let metadata := Fixture.source 30 false 0 in
  exists st gains n,
    Fixture.after_right Fixture.stereo = Some st
    /\ frame_gains st metadata = Some (gains, n)
    /\ n = interpolationLength (jumpPosition metadata)
    /\ flag (jumpPosition metadata) = false
    /\ ~ (n = interpolationLength (jumpPosition metadata)
          <-> flag (jumpPosition metadata)
              && negb (metadata_eq metadata (m_metadata st))
              && negb (m_bFirstFrame st) = true).
Proof.
  intros metadata. eexists _, _, _.
  split; [vm_compute; reflexivity|]. split; [vm_compute; reflexivity|].
  split; [reflexivity|]. split; [reflexivity|].
  intros [Hiff _]. specialize (Hiff eq_refl). vm_compute in Hiff.
  discriminate.
Qed.

(** C4, amended. For every call to [ProcessAccumul] on an instance that has
    processed [frames] since its construction, the interpolation length is
    [metadata.jumpPosition.interpolationLength] when
    [metadata.jumpPosition.flag] is true, the metadata differs from the cached
    metadata and at least one frame has been processed before, and it is 0 in
    every other case (so also on the first call to a fresh instance with the
    flag true).  Hence, when [interpolationLength] is not 0, the
    interpolation length equals it if and only if the three conditions
    hold. *)
Theorem C4_interpolation_length {CL ZE : Type} `{Externals CL ZE}
    (targetLayout : Layout) (frames : list Frame)
    (st : CAdmPointSourcePanner CL ZE) (metadata : ObjectMetadata CL ZE)
    (gains : list double) (n : Z) :
  run (new_panner targetLayout) frames = Some st ->
  frame_gains st metadata = Some (gains, n) ->
  let len := interpolationLength (jumpPosition metadata) in
  let jump :=
    flag (jumpPosition metadata)
    && negb (metadata_eq metadata (m_metadata st))
    && negb (Nat.eqb (length frames) 0) in
  n = (if jump then len else 0)
  /\ (len <> 0 -> (n = len <-> jump = true)).
Proof.
  intros Hrun Hfg len jump.
  assert (Hfirst : m_bFirstFrame st = Nat.eqb (length frames) 0).
  { rewrite (run_first_frame _ _ _ Hrun). now destruct frames. }
  assert (Hn : n = if jump then len else 0).
  { subst jump len. rewrite <- Hfirst.
    apply frame_gains_inv in Hfg as [(Hne & _ & ->)|(Heq & _ & ->)].
    - rewrite Hne. simpl. rewrite andb_true_r. reflexivity.
    - rewrite Heq. simpl. rewrite andb_false_r. reflexivity. }
  split; [exact Hn|].
  intros Hlen. rewrite Hn. destruct jump; split; intros; congruence.
Qed.

Lemma C4_interpolation_length_witness :
  let metadata := Fixture.source 30 true 2 in
  let frames :=
    [ {| fr_metadata := Fixture.source (-30) false 0; fr_pIn := [];
         fr_out := Fixture.silence 0 0; fr_nSamples := 0; fr_nOffset := 0 |} ] in
  exists st gains,
    run (new_panner Fixture.stereo) frames = Some st
    /\ frame_gains st metadata = Some (gains, 2)
    /\ 2 = (if flag (jumpPosition metadata)
               && negb (metadata_eq metadata (m_metadata st))
               && negb (Nat.eqb (length frames) 0)
            then interpolationLength (jumpPosition metadata) else 0).
Proof.
  intros metadata frames.
  destruct (run (new_panner Fixture.stereo) frames) as [st|] eqn:Hrun;
    [|vm_compute in Hrun; discriminate].
  destruct (frame_gains st metadata) as [[gains n]|] eqn:Hfg.
  - assert (Hn : n = 2).
    { vm_compute in Hrun. injection Hrun as <-.
      vm_compute in Hfg. now injection Hfg as _ <-. }
    subst n. exists st, gains.
    split; [reflexivity|]. split; [exact Hfg|].
    exact (proj1 (C4_interpolation_length Fixture.stereo frames st metadata
                    gains 2 Hrun Hfg)).
  - vm_compute in Hrun. injection Hrun as <-. vm_compute in Hfg. discriminate.
Defined.




(* ===================================================================== *)
(** * The power summation *)
(* ===================================================================== *)

Section PowerSum.
Variables (weights : list double) (gains_for_each_pos : list (list double)).

(** The inner loop from source [k] on is a left fold over the sources that
    are left. *)
Lemma power_sum_inner_fold (i : nat) (count : nat) :
  forall (k : nat) (acc v : double),
    (count = length weights - k)%nat -> (k <= length weights)%nat ->
    for_loop
      (fun j g_tmp =>
         w ← weights !! Z.to_nat j;
         row ← gains_for_each_pos !! Z.to_nat j;
         g ← row !! i;
         Some (g_tmp + w * g * g)%f64)
      count (Z.of_nat k) acc = Some v ->
    v = fold_left
          (fun acc wg =>
             (acc + fst wg * nth i (snd wg) F64.zero
                    * nth i (snd wg) F64.zero)%f64)
          (zip (drop k weights) (drop k gains_for_each_pos)) acc.
Proof.
  induction count as [|c IH]; intros k acc v Hcount Hk; simpl.
  - intros [= <-]. rewrite drop_ge by lia. reflexivity.
  - rewrite Nat2Z.id.
    destruct (weights !! k) as [w|] eqn:Hw; [|discriminate]. simpl.
    destruct (gains_for_each_pos !! k) as [row|] eqn:Hrow; [|discriminate].
    simpl.
    destruct (row !! i) as [g|] eqn:Hg; [|discriminate]. simpl.
    replace (Z.of_nat k + 1) with (Z.of_nat (S k)) by lia.
    intros Hrest. apply IH in Hrest; [|lia|lia].
    rewrite (drop_S _ _ _ Hw), (drop_S _ _ _ Hrow). simpl.
    now rewrite (nth_lookup_Some _ _ F64.zero _ Hg).
Qed.

Lemma power_sum_channel_formula (i : Z) (v : double) :
  power_sum_channel weights gains_for_each_pos i = Some v ->
  v = power_sum_formula weights gains_for_each_pos (Z.to_nat i).
Proof.
  unfold power_sum_channel, for_range, power_sum_formula.
  destruct (for_loop _ _ _ _) as [g_tmp|] eqn:Hloop; [|discriminate].
  simpl. intros [= <-]. f_equal.
  rewrite Z.sub_0_r, Nat2Z.id in Hloop.
  apply (power_sum_inner_fold (Z.to_nat i) (length weights) 0) in Hloop;
    [exact Hloop | lia | lia].
Qed.

Lemma power_summation_formula (nCh : Z) (pre : list double) :
  0 <= nCh <= INT_MAX ->
  power_summation nCh weights gains_for_each_pos = Some pre ->
  length pre = Z.to_nat nCh /\
  forall i : nat, (i < Z.to_nat nCh)%nat ->
    pre !! i = Some (power_sum_formula weights gains_for_each_pos i).
Proof.
  intros HnCh Hsum. unfold power_summation, for_range in Hsum.
  rewrite to_int_small in Hsum by exact HnCh.
  apply (for_loop_invariant
           (fun j gains =>
              length gains = Z.to_nat nCh /\
              forall i : nat, Z.of_nat i < j ->
                gains !! i
                = Some (power_sum_formula weights gains_for_each_pos i)))
    in Hsum.
  - destruct Hsum as [Hlen Hall]. split; [exact Hlen|].
    intros i Hi. apply Hall. lia.
  - split; [apply length_replicate | intros i Hi; lia].
  - intros j gains gains' Hj [Hlen Hall] Hbody.
    destruct (power_sum_channel weights gains_for_each_pos j) as [g|] eqn:Hg;
      [|discriminate].
    simpl in Hbody. injection Hbody as <-.
    apply power_sum_channel_formula in Hg. subst g.
    split; [now rewrite length_insert|].
    intros i Hi. destruct (decide (i = Z.to_nat j)) as [->|Hne].
    + apply list_lookup_insert_eq. lia.
    + rewrite list_lookup_insert_ne by congruence. apply Hall. lia.
Qed.

End PowerSum.

(** C2. For every frame whose metadata differs from the cached metadata (on
    an instance with at most [INT_MAX] channels that are not LFE), the gain
    vector handed to the zone exclusion has one entry for each such channel,
    and entry [i] is the square root of the sum, over the diverged sources
    [j] in order, of [weight[j] * gain[j][i] * gain[j][i]]; the target gains
    are the result of the zone exclusion scaled by the overall gain.  The
    power sum is not the linear sum of the weighted gains: for the weights
    [0, 0.5, 0.5] and the gains [1, 0] and [0, 1] of the two sides the two
    differ. *)
Theorem C2_power_summation {CL ZE : Type} `{Externals CL ZE}
    (st : CAdmPointSourcePanner CL ZE) (metadata : ObjectMetadata CL ZE)
    (gains : list double) (n : Z) :
  metadata_eq metadata (m_metadata st) = false ->
  0 <= m_nCh st <= INT_MAX ->
  frame_gains st metadata = Some (gains, n) ->
  (exists pre,
     power_summed_gains st metadata = Some pre
     /\ gains = map (fun g => (g * gain metadata)%f64)
                  (zoneExclusion_handle (m_layout st)
                     (zoneExclusionPolar metadata) pre)
     /\ length pre = Z.to_nat (m_nCh st)
     /\ forall i : nat, (i < Z.to_nat (m_nCh st))%nat ->
          pre !! i
          = Some (power_sum_formula (frame_diverged_gains st metadata)
                    (frame_gains_for_each_pos st metadata) i))
  /\ (let weights := [F64.zero; F64.half; F64.half] in
      let gains_for_each_pos :=
        [[F64.one; F64.one]; [F64.one; F64.zero]; [F64.zero; F64.one]] in
      exists g0 g1,
        power_summation 2 weights gains_for_each_pos = Some [g0; g1]
        /\ g0 = F64.sqrt F64.half
        /\ linear_sum_formula weights gains_for_each_pos 0 = F64.half
        /\ F64.eqb g0 (linear_sum_formula weights gains_for_each_pos 0) = false).
Proof.
  intros Hne HnCh Hfg. split.
  - apply frame_gains_inv in Hfg as [(_ & Hre & _)|(Heq & _)]; [|congruence].
    unfold recomputed_gains in Hre.
    destruct (power_summed_gains st metadata) as [pre|] eqn:Hpre;
      [|discriminate].
    simpl in Hre. injection Hre as <-. exists pre.
    split; [reflexivity|]. split; [reflexivity|].
    now apply power_summation_formula.
  - eexists _, _. split; [vm_compute; reflexivity|].
    repeat split; vm_compute; reflexivity.
Qed.

Lemma C2_power_summation_witness :
  let metadata := Fixture.source 30 true 2 in
  exists st,
    Fixture.after_right Fixture.stereo = Some st
    /\ metadata_eq metadata (m_metadata st) = false
    /\ 0 <= m_nCh st <= INT_MAX
    /\ frame_gains st metadata = Some ([F64.one; F64.zero], 2)
    /\ power_summed_gains st metadata = Some [F64.one; F64.zero].
Proof.
  intros metadata.
  destruct (Fixture.after_right Fixture.stereo) as [st|] eqn:Hst;
    [|vm_compute in Hst; discriminate].
  assert (Hne : metadata_eq metadata (m_metadata st) = false).
  { vm_compute in Hst. injection Hst as <-. reflexivity. }
  assert (HnCh : 0 <= m_nCh st <= INT_MAX).
  { vm_compute in Hst. injection Hst as <-. vm_compute.
    split; intros Hcmp; discriminate Hcmp. }
  assert (Hfg : frame_gains st metadata = Some ([F64.one; F64.zero], 2)).
  { vm_compute in Hst. injection Hst as <-. reflexivity. }
  exists st. split; [reflexivity|]. split; [exact Hne|].
  split; [exact HnCh|]. split; [exact Hfg|].
  destruct (C2_power_summation st metadata _ _ Hne HnCh Hfg)
    as [(pre & Hpre & _) _].
  rewrite Hpre. vm_compute in Hst. injection Hst as <-.
  vm_compute in Hpre. injection Hpre as <-. reflexivity.
Defined.

(* ===================================================================== *)
(** * The sample loops *)
(* ===================================================================== *)

(** Case analysis on every comparison of the goal, closed by arithmetic. *)
Ltac case_bounds :=
  repeat match goal with
         | |- context [Z.leb ?a ?b] => destruct (Z.leb_spec a b)
         | |- context [Z.ltb ?a ?b] => destruct (Z.ltb_spec a b)
         end;
  simpl; try reflexivity; try lia.

Lemma window_empty (lo hi off : Z) (c : Z -> float) (k : nat) (old : float) :
  hi <= lo -> window lo hi off c k old = old.
Proof.
  intros Hle. unfold window.
  case_bounds.
Qed.

Lemma window_inside (lo hi off : Z) (c : Z -> float) (k : nat) (old : float) :
  lo + off <= Z.of_nat k < hi + off ->
  window lo hi off c k old = (old + c (Z.of_nat k - off)%Z)%f32.
Proof.
  intros Hin. unfold window.
  case_bounds.
Qed.

Lemma window_outside (lo hi off : Z) (c : Z -> float) (k : nat) (old : float) :
  Z.of_nat k < lo + off \/ hi + off <= Z.of_nat k ->
  window lo hi off c k old = old.
Proof.
  intros Hout. unfold window.
  case_bounds.
Qed.

Lemma imap_window_empty (lo hi off : Z) (c : Z -> float) (row : list float) :
  hi <= lo -> imap (window lo hi off c) row = row.
Proof.
  intros Hle. apply list_eq. intros k. rewrite list_lookup_imap.
  destruct (row !! k); simpl; [|reflexivity].
  now rewrite window_empty.
Qed.

Lemma alter_window_empty (lo hi off : Z) (c : Z -> float) (i : nat)
    (pp : list (list float)) :
  hi <= lo -> alter (imap (window lo hi off c)) i pp = pp.
Proof.
  intros Hle. apply list_alter_id. intros row. now apply imap_window_empty.
Qed.

(** One accumulation extends the window by one slot. *)
Lemma accumulate_window (pp0 pp' : list (list float)) (i : nat)
    (lo j off : Z) (c : Z -> float) :
  lo <= j -> 0 <= j + off ->
  accumulate (alter (imap (window lo j off c)) i pp0) i (j + off) (c j)
  = Some pp' ->
  pp' = alter (imap (window lo (j + 1) off c)) i pp0
  /\ exists row0, pp0 !! i = Some row0 /\ j + off < Z.of_nat (length row0).
Proof.
  intros Hlo Hpos. unfold accumulate.
  rewrite list_lookup_alter_eq.
  destruct (pp0 !! i) as [row0|] eqn:Hrow0; simpl; [|discriminate].
  rewrite list_lookup_imap.
  destruct (row0 !! Z.to_nat (j + off)) as [old0|] eqn:Hold; simpl;
    [|discriminate].
  intros [= <-].
  pose proof (lookup_lt_Some _ _ _ Hold) as Hlen.
  pose proof (lookup_lt_Some _ _ _ Hrow0) as Hleni.
  split; [|exists row0; split; [reflexivity|lia]].
  apply list_eq. intros c'. destruct (decide (c' = i)) as [->|Hne].
  - rewrite list_lookup_insert_eq by now rewrite length_alter.
    rewrite list_lookup_alter_eq, Hrow0. simpl. f_equal.
    apply list_eq. intros k.
    destruct (decide (k = Z.to_nat (j + off))) as [->|Hk].
    + rewrite list_lookup_insert_eq by now rewrite length_imap.
      rewrite list_lookup_imap, Hold. simpl. f_equal.
      rewrite (window_outside lo j) by lia.
      rewrite (window_inside lo (j + 1)) by lia.
      do 2 f_equal. lia.
    + rewrite list_lookup_insert_ne by congruence.
      rewrite !list_lookup_imap. destruct (row0 !! k); simpl; [|reflexivity].
      f_equal. unfold window. case_bounds.
  - rewrite list_lookup_insert_ne by congruence.
    now rewrite !list_lookup_alter_ne by congruence.
Qed.

Lemma accumulate_Some (pp : list (list float)) (i : nat) (k : Z) (v : float)
    (row : list float) :
  pp !! i = Some row -> 0 <= k < Z.of_nat (length row) ->
  exists old,
    row !! Z.to_nat k = Some old
    /\ accumulate pp i k v
       = Some (<[i := <[Z.to_nat k := (old + v)%f32]> row]> pp).
Proof.
  intros Hrow Hk. unfold accumulate. rewrite Hrow. simpl.
  destruct (lookup_lt_is_Some_2 row (Z.to_nat k)) as [old Hold]; [lia|].
  exists old. rewrite Hold. split; reflexivity.
Qed.

Section SampleLoop.
Variables (nOffset : Z) (directCoeff diffuseCoeff : float) (i : nat).
Variable (sd : Z -> option float).

(** A loop over [lo <= iSample < hi] that returns has added the sample data
    times the coefficient of the bus in a window of row [i], on both buses,
    and has read only what is there. *)
Lemma sample_loop_spec (lo hi : Z) (out0 out : Buses) :
  0 <= lo -> 0 <= nOffset -> hi + nOffset <= UINT_MOD ->
  for_range lo hi
    (fun s => add_sample nOffset directCoeff diffuseCoeff i s (sd s)) out0
  = Some out ->
  ppDirect out
  = alter (imap (window lo hi nOffset
                   (fun s => (default F32.zero (sd s) * directCoeff)%f32)))
      i (ppDirect out0)
  /\ ppDiffuse out
     = alter (imap (window lo hi nOffset
                      (fun s => (default F32.zero (sd s) * diffuseCoeff)%f32)))
         i (ppDiffuse out0)
  /\ forall s, lo <= s < hi ->
       is_Some (sd s)
       /\ (exists row, ppDirect out0 !! i = Some row
                       /\ s + nOffset < Z.of_nat (length row))
       /\ (exists row, ppDiffuse out0 !! i = Some row
                       /\ s + nOffset < Z.of_nat (length row)).
Proof.
  intros Hlo Hoff Hhi Hrun.
  destruct (Z.le_gt_cases hi lo) as [Hempty|Hlt].
  - rewrite for_range_empty in Hrun by exact Hempty. injection Hrun as <-.
    rewrite !alter_window_empty by exact Hempty.
    split; [reflexivity|]. split; [reflexivity|]. intros s Hs. lia.
  - unfold for_range in Hrun.
    apply (for_loop_invariant
             (fun j t =>
                ppDirect t
                = alter (imap (window lo j nOffset
                     (fun s => (default F32.zero (sd s) * directCoeff)%f32)))
                    i (ppDirect out0)
                /\ ppDiffuse t
                   = alter (imap (window lo j nOffset
                        (fun s => (default F32.zero (sd s) * diffuseCoeff)%f32)))
                       i (ppDiffuse out0)
                /\ forall s, lo <= s < j ->
                     is_Some (sd s)
                     /\ (exists row, ppDirect out0 !! i = Some row
                                     /\ s + nOffset < Z.of_nat (length row))
                     /\ (exists row, ppDiffuse out0 !! i = Some row
                                     /\ s + nOffset < Z.of_nat (length row))))
      in Hrun.
    + now replace (lo + Z.of_nat (Z.to_nat (hi - lo))) with hi in Hrun by lia.
    + rewrite !alter_window_empty by lia.
      split; [reflexivity|]. split; [reflexivity|]. intros s Hs. lia.
    + intros j t t' Hj (HD & HF & Hread) Hbody.
      unfold add_sample in Hbody.
      destruct (sd j) as [v|] eqn:Hsd; [|discriminate]. simpl in Hbody.
      rewrite to_unsigned_small in Hbody by lia.
      destruct (accumulate (ppDirect t) i (j + nOffset) (v * directCoeff)%f32)
        as [d'|] eqn:Hd; [|discriminate].
      simpl in Hbody.
      destruct (accumulate (ppDiffuse t) i (j + nOffset) (v * diffuseCoeff)%f32)
        as [f'|] eqn:Hf; [|discriminate].
      simpl in Hbody. injection Hbody as <-. simpl.
      rewrite HD in Hd. rewrite HF in Hf.
      assert (Hv : v = default F32.zero (sd j)) by now rewrite Hsd.
      rewrite Hv in Hd, Hf.
      apply (accumulate_window _ _ _ lo j nOffset
               (fun s => (default F32.zero (sd s) * directCoeff)%f32))
        in Hd as [-> HrowD]; [|lia|lia].
      apply (accumulate_window _ _ _ lo j nOffset
               (fun s => (default F32.zero (sd s) * diffuseCoeff)%f32))
        in Hf as [-> HrowF]; [|lia|lia].
      split; [reflexivity|]. split; [reflexivity|].
      intros s Hs. destruct (Z.eq_dec s j) as [->|Hne].
      * rewrite Hsd. split; [eauto|]. split; assumption.
      * apply Hread. lia.
Qed.

(** A loop whose samples and slots are all there returns. *)
Lemma sample_loop_progress (lo hi : Z) (out0 : Buses) (rowD rowF : list float) :
  0 <= lo -> 0 <= nOffset -> hi + nOffset <= UINT_MOD ->
  (forall s, lo <= s < hi -> is_Some (sd s)) ->
  ppDirect out0 !! i = Some rowD -> ppDiffuse out0 !! i = Some rowF ->
  hi + nOffset <= Z.of_nat (length rowD) ->
  hi + nOffset <= Z.of_nat (length rowF) ->
  is_Some (for_range lo hi
             (fun s => add_sample nOffset directCoeff diffuseCoeff i s (sd s))
             out0).
Proof.
  intros Hlo Hoff Hhi Hsd HrowD HrowF HlenD HlenF. unfold for_range.
  destruct (for_loop_progress
              (fun (j : Z) t =>
                 (exists row, ppDirect t !! i = Some row
                              /\ length row = length rowD)
                 /\ (exists row, ppDiffuse t !! i = Some row
                                 /\ length row = length rowF))
              (fun s => add_sample nOffset directCoeff diffuseCoeff i s (sd s))
              (Z.to_nat (hi - lo)) lo out0) as (out & Hrun & _).
  - split; eauto.
  - intros j t Hj [(rD & HrD & HlD) (rF & HrF & HlF)].
    unfold add_sample.
    destruct (Hsd j) as [v Hv]; [lia|]. rewrite Hv. simpl.
    rewrite to_unsigned_small by lia.
    destruct (accumulate_Some (ppDirect t) i (j + nOffset)
                (v * directCoeff)%f32 rD HrD) as (oD & _ & ->); [lia|].
    simpl.
    destruct (accumulate_Some (ppDiffuse t) i (j + nOffset)
                (v * diffuseCoeff)%f32 rF HrF) as (oF & _ & ->); [lia|].
    simpl. eexists. split; [reflexivity|]. simpl.
    split; eexists; (split;
      [apply list_lookup_insert_eq; eapply lookup_lt_Some; eassumption
      | rewrite length_insert; assumption]).
  - rewrite Hrun. eauto.
Qed.

End SampleLoop.

(* ===================================================================== *)
(** * The channel loop *)
(* ===================================================================== *)

Lemma gain_index_0 (chs : list Channel) : gain_index chs 0 = 0%nat.
Proof. unfold gain_index. now rewrite take_0. Qed.

Lemma gain_index_S (ch : Channel) (rest : list Channel) (p : nat) :
  gain_index (ch :: rest) (S p)
  = ((if isLFE ch then 0 else 1) + gain_index rest p)%nat.
Proof. unfold gain_index. simpl. now destruct (isLFE ch). Qed.

Lemma gain_index_lt (chs : list Channel) (p : nat) (ch : Channel) :
  chs !! p = Some ch -> isLFE ch = false ->
  (gain_index chs p
   < length (List.filter (fun ch => negb (isLFE ch)) chs))%nat.
Proof.
  revert p. induction chs as [|c rest IH]; intros p Hp Hch; [discriminate|].
  destruct p as [|p].
  - injection Hp as ->. rewrite gain_index_0. simpl. rewrite Hch. simpl. lia.
  - rewrite gain_index_S. simpl in Hp. specialize (IH p Hp Hch).
    simpl. destruct (isLFE c); simpl; lia.
Qed.

Lemma read_sample_Some (pIn : list float) (s : Z) (v : float) :
  read_sample pIn s = Some v <-> 0 <= s /\ pIn !! Z.to_nat s = Some v.
Proof.
  unfold read_sample. destruct (Z.ltb_spec s 0); split.
  - discriminate.
  - intros [Hs _]. lia.
  - auto.
  - now intros [_ Hv].
Qed.

Section ChannelLoopLemmas.
Variables (gains prev_gains : list double) (pIn : list float).
Variables (nInterpSamples nSamples nOffset : Z).
Variables (directCoeff diffuseCoeff : float).

Lemma plain_sampleData_Some (iCh : nat) (s : Z) (v : float) :
  plain_sampleData gains pIn iCh s = Some v <->
  exists sample g,
    0 <= s /\ pIn !! Z.to_nat s = Some sample /\ gains !! iCh = Some g
    /\ v = (sample * F32.of_double g)%f32.
Proof.
  unfold plain_sampleData. split.
  - destruct (read_sample pIn s) as [sample|] eqn:Hs; [|discriminate].
    simpl. destruct (gains !! iCh) as [g|]; [|discriminate]. simpl.
    intros [= <-]. apply read_sample_Some in Hs as [Hs0 Hs].
    exists sample, g. auto.
  - intros (sample & g & Hs0 & Hs & Hg & ->).
    assert (Hr : read_sample pIn s = Some sample)
      by now apply read_sample_Some.
    rewrite Hr. simpl. rewrite Hg. reflexivity.
Qed.

Lemma interp_sampleData_Some (delta : float) (iCh : nat) (s : Z) (v : float) :
  interp_sampleData gains prev_gains pIn delta iCh s = Some v <->
  exists sample g g_prev,
    0 <= s /\ pIn !! Z.to_nat s = Some sample /\ gains !! iCh = Some g
    /\ prev_gains !! iCh = Some g_prev
    /\ v = (sample * interpolated_gain delta s g g_prev)%f32.
Proof.
  unfold interp_sampleData. split.
  - destruct (read_sample pIn s) as [sample|] eqn:Hs; [|discriminate].
    simpl. destruct (gains !! iCh) as [g|]; [|discriminate]. simpl.
    destruct (prev_gains !! iCh) as [g_prev|]; [|discriminate]. simpl.
    intros [= <-]. apply read_sample_Some in Hs as [Hs0 Hs].
    exists sample, g, g_prev. auto.
  - intros (sample & g & g_prev & Hs0 & Hs & Hg & Hp & ->).
    assert (Hr : read_sample pIn s = Some sample)
      by now apply read_sample_Some.
    rewrite Hr. simpl. rewrite Hg. simpl. rewrite Hp. reflexivity.
Qed.

(** The two loops of a channel that is not LFE. *)
Lemma process_channel_spec (i iCh : nat) (out0 out : Buses) :
  no_wrap nInterpSamples nSamples nOffset ->
  process_channel gains prev_gains pIn nInterpSamples nSamples nOffset
    directCoeff diffuseCoeff i iCh out0 = Some out ->
  ppDirect out
  = alter (row_after gains prev_gains pIn nInterpSamples nSamples nOffset
             directCoeff iCh) i (ppDirect out0)
  /\ ppDiffuse out
     = alter (row_after gains prev_gains pIn nInterpSamples nSamples nOffset
                diffuseCoeff iCh) i (ppDiffuse out0)
  /\ (forall s, 0 <= s < nInterpSamples ->
        is_Some (interp_sampleData gains prev_gains pIn
                   (deltaCoeff nInterpSamples) iCh s))
  /\ (forall s, nInterpSamples <= s < nSamples ->
        is_Some (plain_sampleData gains pIn iCh s))
  /\ (forall s, 0 <= s < Z.max nInterpSamples nSamples ->
        (exists row, ppDirect out0 !! i = Some row
                     /\ s + nOffset < Z.of_nat (length row))
        /\ (exists row, ppDiffuse out0 !! i = Some row
                        /\ s + nOffset < Z.of_nat (length row))).
Proof.
  intros (Hoff & HnS & Hwrap) Hrun.
  unfold process_channel, sample_loops in Hrun.
  rewrite (to_int_small nSamples HnS) in Hrun.
  destruct (for_range 0 nInterpSamples _ out0) as [out1|] eqn:Hfirst;
    [|discriminate].
  simpl in Hrun.
  apply sample_loop_spec in Hfirst as (HD1 & HF1 & Hread1); [|lia|lia|lia].
  unfold row_after. rewrite (to_int_small nSamples HnS).
  assert (Hsecond :
    ppDirect out
    = alter (imap (window nInterpSamples nSamples nOffset
                     (plain_contribution gains pIn directCoeff iCh)))
        i (ppDirect out1)
    /\ ppDiffuse out
       = alter (imap (window nInterpSamples nSamples nOffset
                        (plain_contribution gains pIn diffuseCoeff iCh)))
           i (ppDiffuse out1)
    /\ forall s, nInterpSamples <= s < nSamples ->
         is_Some (plain_sampleData gains pIn iCh s)
         /\ (exists row, ppDirect out1 !! i = Some row
                         /\ s + nOffset < Z.of_nat (length row))
         /\ (exists row, ppDiffuse out1 !! i = Some row
                         /\ s + nOffset < Z.of_nat (length row))).
  { destruct (Z.le_gt_cases nSamples nInterpSamples) as [Hempty|Hlt].
    - rewrite for_range_empty in Hrun by exact Hempty. injection Hrun as <-.
      rewrite !alter_window_empty by exact Hempty.
      split; [reflexivity|]. split; [reflexivity|]. intros s Hs. lia.
    - destruct (Z.lt_ge_cases nInterpSamples 0) as [Hneg|Hpos].
      + apply for_range_first in Hrun as [out2 Hbody]; [|exact Hlt].
        unfold add_sample in Hbody.
        destruct (plain_sampleData gains pIn iCh nInterpSamples) as [v|] eqn:Hv;
          [|discriminate].
        apply plain_sampleData_Some in Hv as (? & ? & Hs0 & _). lia.
      + apply sample_loop_spec in Hrun; [exact Hrun|lia|lia|lia]. }
  destruct Hsecond as (HD2 & HF2 & Hread2).
  split; [|split].
  - rewrite HD2, HD1. apply list_eq. intros c.
    destruct (decide (i = c)) as [->|Hne].
    + rewrite !list_lookup_alter_eq. now destruct (ppDirect out0 !! c).
    + now rewrite !list_lookup_alter_ne by exact Hne.
  - rewrite HF2, HF1. apply list_eq. intros c.
    destruct (decide (i = c)) as [->|Hne].
    + rewrite !list_lookup_alter_eq. now destruct (ppDiffuse out0 !! c).
    + now rewrite !list_lookup_alter_ne by exact Hne.
  - split; [intros s Hs; now apply Hread1|].
    split; [intros s Hs; now apply Hread2|].
    intros s Hs. destruct (Z.lt_ge_cases s nInterpSamples) as [Hin|Hafter].
    + destruct (Hread1 s) as (_ & HrD & HrF); [lia|]. split; assumption.
    + destruct (Hread2 s) as (_ & (rD & HrD & HlD) & (rF & HrF & HlF)); [lia|].
      rewrite HD1, list_lookup_alter_eq in HrD.
      rewrite HF1, list_lookup_alter_eq in HrF.
      destruct (ppDirect out0 !! i) as [rD0|]; [|discriminate].
      destruct (ppDiffuse out0 !! i) as [rF0|]; [|discriminate].
      simpl in HrD, HrF. injection HrD as <-. injection HrF as <-.
      rewrite length_imap in HlD, HlF.
      split; eexists; (split; [reflexivity|assumption]).
Qed.

End ChannelLoopLemmas.

Section ChannelLoopSpec.
Variables (gains prev_gains : list double) (pIn : list float).
Variables (nInterpSamples nSamples nOffset : Z).
Variables (directCoeff diffuseCoeff : float).

#[local] Abbreviation loop :=
  (channel_loop gains prev_gains pIn nInterpSamples nSamples nOffset
     directCoeff diffuseCoeff).
#[local] Abbreviation row_of coeff :=
  (channel_row_after gains prev_gains pIn nInterpSamples nSamples nOffset coeff).

Lemma channel_row_after_cons_0 (coeff : float) (ch : Channel)
    (rest : list Channel) (iCh : nat) (row : list float) :
  row_of coeff (ch :: rest) iCh 0 row
  = if isLFE ch then row
    else row_after gains prev_gains pIn nInterpSamples nSamples nOffset
           coeff iCh row.
Proof.
  unfold channel_row_after. simpl. rewrite gain_index_0.
  now rewrite Nat.add_0_r.
Qed.

Lemma channel_row_after_cons_S (coeff : float) (ch : Channel)
    (rest : list Channel) (iCh p : nat) (row : list float) :
  row_of coeff (ch :: rest) iCh (S p) row
  = row_of coeff rest (if isLFE ch then iCh else S iCh) p row.
Proof.
  unfold channel_row_after. simpl. rewrite gain_index_S.
  destruct (rest !! p) as [ch'|]; [|reflexivity].
  destruct (isLFE ch'); [reflexivity|].
  destruct (isLFE ch); simpl; [reflexivity|].
  now replace (iCh + S (gain_index rest p))%nat
    with (S (iCh + gain_index rest p)) by lia.
Qed.

(** A channel loop that returns has left the rows before [i] alone and has
    turned row [i + p] into [channel_row_after ... p] of it; for every channel
    that is not LFE it has read the samples and gains of both loops. *)
Lemma channel_loop_spec (chs : list Channel) :
  no_wrap nInterpSamples nSamples nOffset ->
  forall (i iCh : nat) (out0 out : Buses),
    loop chs i iCh out0 = Some out ->
    (forall c row, ppDirect out0 !! c = Some row ->
       ppDirect out !! c
       = Some (if decide (c < i)%nat then row
               else row_of directCoeff chs iCh (c - i) row))
    /\ (forall c row, ppDiffuse out0 !! c = Some row ->
          ppDiffuse out !! c
          = Some (if decide (c < i)%nat then row
                  else row_of diffuseCoeff chs iCh (c - i) row))
    /\ (forall p ch, chs !! p = Some ch -> isLFE ch = false ->
          (forall s, 0 <= s < nInterpSamples ->
             is_Some (interp_sampleData gains prev_gains pIn
                        (deltaCoeff nInterpSamples)
                        (iCh + gain_index chs p) s))
          /\ (forall s, nInterpSamples <= s < nSamples ->
                is_Some (plain_sampleData gains pIn
                           (iCh + gain_index chs p) s))
          /\ (forall s, 0 <= s < Z.max nInterpSamples nSamples ->
                (exists row, ppDirect out0 !! (i + p)%nat = Some row
                             /\ s + nOffset < Z.of_nat (length row))
                /\ (exists row, ppDiffuse out0 !! (i + p)%nat = Some row
                                /\ s + nOffset < Z.of_nat (length row)))).
Proof.
  intros Hwrap.
  induction chs as [|ch rest IH]; intros i iCh out0 out Hrun; simpl in Hrun.
  - injection Hrun as <-.
    split; [|split].
    + intros c row Hrow. rewrite Hrow. now destruct (decide (c < i)%nat).
    + intros c row Hrow. rewrite Hrow. now destruct (decide (c < i)%nat).
    + intros p ch Hp. discriminate.
  - destruct (isLFE ch) eqn:Hlfe.
    + destruct (IH _ _ _ _ Hrun) as (HD & HF & Hread).
      split; [|split].
      * intros c row Hrow. rewrite (HD c row Hrow). f_equal.
        destruct (decide (c < i)%nat) as [Hlt|Hge];
          destruct (decide (c < S i)%nat) as [Hlt'|Hge']; try reflexivity;
          try lia.
        -- replace (c - i)%nat with 0%nat by lia.
           now rewrite channel_row_after_cons_0, Hlfe.
        -- replace (c - i)%nat with (S (c - S i)) by lia.
           now rewrite channel_row_after_cons_S, Hlfe.
      * intros c row Hrow. rewrite (HF c row Hrow). f_equal.
        destruct (decide (c < i)%nat) as [Hlt|Hge];
          destruct (decide (c < S i)%nat) as [Hlt'|Hge']; try reflexivity;
          try lia.
        -- replace (c - i)%nat with 0%nat by lia.
           now rewrite channel_row_after_cons_0, Hlfe.
        -- replace (c - i)%nat with (S (c - S i)) by lia.
           now rewrite channel_row_after_cons_S, Hlfe.
      * intros [|p] ch' Hp Hch'; simpl in Hp.
        -- injection Hp as <-. congruence.
        -- rewrite gain_index_S, Hlfe. simpl.
           replace (i + S p)%nat with (S i + p)%nat by lia.
           now apply (Hread p ch').
    + destruct (process_channel _ _ _ _ _ _ _ _ i iCh out0) as [out1|] eqn:Hch;
        [|discriminate].
      simpl in Hrun.
      apply process_channel_spec in Hch as (HD1 & HF1 & Hi1 & Hp1 & Hrows1);
        [|exact Hwrap].
      destruct (IH _ _ _ _ Hrun) as (HD & HF & Hread).
      split; [|split].
      * intros c row Hrow. destruct (decide (c = i)) as [->|Hne].
        -- rewrite (HD i (row_after gains prev_gains pIn nInterpSamples
                            nSamples nOffset directCoeff iCh row)).
           ++ destruct (decide (i < S i)%nat); [|lia].
              destruct (decide (i < i)%nat); [lia|].
              rewrite Nat.sub_diag, channel_row_after_cons_0, Hlfe.
              reflexivity.
           ++ now rewrite HD1, list_lookup_alter_eq, Hrow.
        -- rewrite (HD c row) by
             now rewrite HD1, list_lookup_alter_ne by congruence.
           f_equal.
           destruct (decide (c < i)%nat) as [Hlt|Hge];
             destruct (decide (c < S i)%nat) as [Hlt'|Hge']; try reflexivity;
             try lia.
           replace (c - i)%nat with (S (c - S i)) by lia.
           now rewrite channel_row_after_cons_S, Hlfe.
      * intros c row Hrow. destruct (decide (c = i)) as [->|Hne].
        -- rewrite (HF i (row_after gains prev_gains pIn nInterpSamples
                            nSamples nOffset diffuseCoeff iCh row)).
           ++ destruct (decide (i < S i)%nat); [|lia].
              destruct (decide (i < i)%nat); [lia|].
              rewrite Nat.sub_diag, channel_row_after_cons_0, Hlfe.
              reflexivity.
           ++ now rewrite HF1, list_lookup_alter_eq, Hrow.
        -- rewrite (HF c row) by
             now rewrite HF1, list_lookup_alter_ne by congruence.
           f_equal.
           destruct (decide (c < i)%nat) as [Hlt|Hge];
             destruct (decide (c < S i)%nat) as [Hlt'|Hge']; try reflexivity;
             try lia.
           replace (c - i)%nat with (S (c - S i)) by lia.
           now rewrite channel_row_after_cons_S, Hlfe.
      * intros [|p] ch' Hp Hch'; simpl in Hp.
        -- rewrite gain_index_0, !Nat.add_0_r. auto.
        -- rewrite gain_index_S, Hlfe.
           replace (iCh + (1 + gain_index rest p))%nat
             with (S iCh + gain_index rest p)%nat by lia.
           replace (i + S p)%nat with (S i + p)%nat by lia.
           destruct (Hread p ch' Hp Hch') as (Hi & Hpl & Hrows).
           split; [exact Hi|]. split; [exact Hpl|].
           intros s Hs. specialize (Hrows s Hs).
           rewrite HD1, HF1 in Hrows.
           rewrite !list_lookup_alter_ne in Hrows by lia. exact Hrows.
Qed.

End ChannelLoopSpec.

(* ===================================================================== *)
(** * ProcessAccumul: what a call adds *)
(* ===================================================================== *)

Lemma row_after_lookup (gains prev_gains : list double) (pIn : list float)
    (nInterpSamples nSamples nOffset : Z) (coeff : float) (iCh : nat)
    (row : list float) (k : nat) (old : float) :
  row !! k = Some old ->
  row_after gains prev_gains pIn nInterpSamples nSamples nOffset coeff iCh row
    !! k
  = Some (match slot_contribution gains prev_gains pIn nInterpSamples nSamples
                  nOffset coeff iCh k with
          | Some v => (old + v)%f32
          | None => old
          end).
Proof.
  intros Hold. unfold row_after.
  rewrite !list_lookup_imap, Hold. simpl. f_equal.
  unfold window, slot_contribution. case_bounds.
Qed.

Lemma length_row_after (gains prev_gains : list double) (pIn : list float)
    (nInterpSamples nSamples nOffset : Z) (coeff : float) (iCh : nat)
    (row : list float) :
  length (row_after gains prev_gains pIn nInterpSamples nSamples nOffset
            coeff iCh row) = length row.
Proof. unfold row_after. now rewrite !length_imap. Qed.

Section CallLemmas.
Context {CL ZE : Type} `{Externals CL ZE}.

(** The rows of both buses after a call that returns. *)
Lemma ProcessAccumul_rows (st st' : CAdmPointSourcePanner CL ZE)
    (metadata : ObjectMetadata CL ZE) (pIn : list float) (out0 out : Buses)
    (nSamples nOffset : Z) (gains : list double) (n : Z) :
  ProcessAccumul st metadata pIn out0 nSamples nOffset = Some (st', out) ->
  frame_gains st metadata = Some (gains, n) ->
  no_wrap n nSamples nOffset ->
  (forall c row, ppDirect out0 !! c = Some row ->
     ppDirect out !! c
     = Some (channel_row_after gains (m_gains st) pIn n nSamples nOffset
               (directCoefficient (diffuse metadata))
               (channels (m_layout st)) 0 c row))
  /\ (forall c row, ppDiffuse out0 !! c = Some row ->
        ppDiffuse out !! c
        = Some (channel_row_after gains (m_gains st) pIn n nSamples nOffset
                  (diffuseCoefficient (diffuse metadata))
                  (channels (m_layout st)) 0 c row))
  /\ (forall c ch, channels (m_layout st) !! c = Some ch -> isLFE ch = false ->
        (forall s, 0 <= s < n ->
           is_Some (interp_sampleData gains (m_gains st) pIn (deltaCoeff n)
                      (gain_index (channels (m_layout st)) c) s))
        /\ (forall s, n <= s < nSamples ->
              is_Some (plain_sampleData gains pIn
                         (gain_index (channels (m_layout st)) c) s))
        /\ (forall s, 0 <= s < Z.max n nSamples ->
              (exists row, ppDirect out0 !! c = Some row
                           /\ s + nOffset < Z.of_nat (length row))
              /\ (exists row, ppDiffuse out0 !! c = Some row
                              /\ s + nOffset < Z.of_nat (length row)))).
Proof.
  intros Hcall Hfg Hwrap.
  apply ProcessAccumul_inv in Hcall as (gains' & n' & Hfg' & Hloop & _).
  rewrite Hfg in Hfg'. injection Hfg' as <- <-.
  apply channel_loop_spec in Hloop as (HD & HF & Hread); [|exact Hwrap].
  split; [|split].
  - intros c row Hrow. rewrite (HD c row Hrow).
    destruct (decide (c < 0)%nat); [lia|]. now rewrite Nat.sub_0_r.
  - intros c row Hrow. rewrite (HF c row Hrow).
    destruct (decide (c < 0)%nat); [lia|]. now rewrite Nat.sub_0_r.
  - intros c ch Hc Hch. exact (Hread c ch Hc Hch).
Qed.

End CallLemmas.

(** The slots of a channel that is not LFE after a call that returns. *)
Lemma ProcessAccumul_slots {CL ZE : Type} `{Externals CL ZE}
    (st st' : CAdmPointSourcePanner CL ZE) (metadata : ObjectMetadata CL ZE)
    (pIn : list float) (out0 out : Buses) (nSamples nOffset : Z)
    (gains : list double) (n : Z) (i : nat) (ch : Channel) (g0 g1 : double) :
  ProcessAccumul st metadata pIn out0 nSamples nOffset = Some (st', out) ->
  frame_gains st metadata = Some (gains, n) ->
  no_wrap n nSamples nOffset ->
  channels (m_layout st) !! i = Some ch -> isLFE ch = false ->
  (0 < n -> m_gains st !! gain_index (channels (m_layout st)) i = Some g0) ->
  gains !! gain_index (channels (m_layout st)) i = Some g1 ->
  forall s, 0 <= s < Z.max n nSamples ->
    exists sample rowD rowD' oldD rowF rowF' oldF,
      pIn !! Z.to_nat s = Some sample
      /\ ppDirect out0 !! i = Some rowD /\ ppDirect out !! i = Some rowD'
      /\ rowD !! Z.to_nat (s + nOffset) = Some oldD
      /\ rowD' !! Z.to_nat (s + nOffset)
         = Some (oldD + sample * effective_gain n s g0 g1
                        * directCoefficient (diffuse metadata))%f32
      /\ ppDiffuse out0 !! i = Some rowF /\ ppDiffuse out !! i = Some rowF'
      /\ rowF !! Z.to_nat (s + nOffset) = Some oldF
      /\ rowF' !! Z.to_nat (s + nOffset)
         = Some (oldF + sample * effective_gain n s g0 g1
                        * diffuseCoefficient (diffuse metadata))%f32.
Proof.
  intros Hcall Hfg Hwrap Hch Hlfe Hg0 Hg1.
  destruct (ProcessAccumul_rows _ _ _ _ _ _ _ _ _ _ Hcall Hfg Hwrap)
    as (HD & HF & Hread).
  destruct (Hread i ch Hch Hlfe) as (Hinterp & Hplain & Hrows).
  intros s Hs.
  destruct (Hrows s Hs) as ((rowD & HrowD & HlenD) & (rowF & HrowF & HlenF)).
  destruct (lookup_lt_is_Some_2 rowD (Z.to_nat (s + nOffset))) as [oldD HoldD];
    [destruct Hwrap; lia|].
  destruct (lookup_lt_is_Some_2 rowF (Z.to_nat (s + nOffset))) as [oldF HoldF];
    [destruct Hwrap; lia|].
  assert (Hsd : exists sample,
            pIn !! Z.to_nat s = Some sample
            /\ forall coeff,
                 slot_contribution gains (m_gains st) pIn n nSamples nOffset
                   coeff (gain_index (channels (m_layout st)) i)
                   (Z.to_nat (s + nOffset))
                 = Some (sample * effective_gain n s g0 g1 * coeff)%f32).
  { destruct Hwrap as (Hoff & HnS & _).
    unfold slot_contribution, effective_gain.
    rewrite (to_int_small nSamples HnS).
    replace (Z.of_nat (Z.to_nat (s + nOffset)) - nOffset) with s by lia.
    destruct (Z.ltb_spec s n) as [Hin|Hafter].
    - destruct (Hinterp s) as [v Hv]; [lia|].
      pose proof Hv as Hv'.
      apply interp_sampleData_Some in Hv'
        as (sample & g & gp & _ & Hsample & Hg & Hgp & ->).
      rewrite Hg1 in Hg. injection Hg as <-.
      rewrite Hg0 in Hgp by lia. injection Hgp as <-.
      exists sample. split; [exact Hsample|]. intros coeff.
      destruct (Z.leb_spec 0 s); [|lia]. simpl.
      unfold interp_contribution. rewrite Hv. reflexivity.
    - destruct (Hplain s) as [v Hv]; [lia|].
      pose proof Hv as Hv'.
      apply plain_sampleData_Some in Hv' as (sample & g & _ & Hsample & Hg & ->).
      rewrite Hg1 in Hg. injection Hg as <-.
      exists sample. split; [exact Hsample|]. intros coeff.
      destruct (Z.leb_spec 0 s); [|lia].
      destruct (Z.leb_spec n s); [|lia].
      destruct (Z.ltb_spec s nSamples); [|lia]. simpl.
      unfold plain_contribution. rewrite Hv. reflexivity. }
  destruct Hsd as (sample & Hsample & Hslot).
  exists sample, rowD. eexists. exists oldD, rowF. eexists. exists oldF.
  split; [exact Hsample|].
  split; [exact HrowD|]. split; [exact (HD i rowD HrowD)|].
  split; [exact HoldD|].
  split.
  { unfold channel_row_after. rewrite Hch, Hlfe. simpl.
    rewrite (row_after_lookup _ _ _ _ _ _ _ _ _ _ _ HoldD).
    now rewrite Hslot. }
  split; [exact HrowF|]. split; [exact (HF i rowF HrowF)|].
  split; [exact HoldF|].
  unfold channel_row_after. rewrite Hch, Hlfe. simpl.
  rewrite (row_after_lookup _ _ _ _ _ _ _ _ _ _ _ HoldF).
  now rewrite Hslot.
Qed.

(** C1. For every call to [ProcessAccumul] that returns (with [nSamples] at
    most [INT_MAX] and no index [iSample + nOffset] beyond 2^32) and every
    channel [i] that is not LFE, with previous gain [g0] and target gain
    [g1] at its gain index: at every sample index [s] the two loops visit,
    the input sample and the slot [s + nOffset] of the direct and of the
    diffuse row exist, and the call adds to the slot the input sample times
    the effective gain times the coefficient of the bus, where the effective
    gain is [f * g1 + (1 - f) * g0] with [f = s * (1 / interpSamples)] in
    single precision for [0 <= s < interpSamples] and [g1] for
    [interpSamples <= s < nSamples].  With [g0 = 0, g1 = 1] (channel 0) and
    [g0 = 1, g1 = 0] (channel 1), [interpSamples = 2] and four samples the
    effective gains are [0, 0.5, 1, 1] and [1, 0.5, 0, 0]. *)
Theorem C1_interpolated_gains {CL ZE : Type} `{Externals CL ZE}
    (st st' : CAdmPointSourcePanner CL ZE) (metadata : ObjectMetadata CL ZE)
    (pIn : list float) (out0 out : Buses) (nSamples nOffset : Z)
    (gains : list double) (n : Z) (i : nat) (ch : Channel) (g0 g1 : double) :
  ProcessAccumul st metadata pIn out0 nSamples nOffset = Some (st', out) ->
  frame_gains st metadata = Some (gains, n) ->
  no_wrap n nSamples nOffset ->
  channels (m_layout st) !! i = Some ch -> isLFE ch = false ->
  m_gains st !! gain_index (channels (m_layout st)) i = Some g0 ->
  gains !! gain_index (channels (m_layout st)) i = Some g1 ->
  let effective_gain (interpSamples s : Z) (g0 g1 : double) : float :=
    if s <? interpSamples then
      let f := (F32.of_int s * (F32.one / F32.of_int interpSamples))%f32 in
      (f * F32.of_double g1 + (F32.one - f) * F32.of_double g0)%f32
    else F32.of_double g1 in
  (forall s, 0 <= s < Z.max n nSamples ->
     exists sample rowD rowD' oldD rowF rowF' oldF,
       pIn !! Z.to_nat s = Some sample
       /\ ppDirect out0 !! i = Some rowD /\ ppDirect out !! i = Some rowD'
       /\ rowD !! Z.to_nat (s + nOffset) = Some oldD
       /\ rowD' !! Z.to_nat (s + nOffset)
          = Some (oldD + sample * effective_gain n s g0 g1
                         * directCoefficient (diffuse metadata))%f32
       /\ ppDiffuse out0 !! i = Some rowF /\ ppDiffuse out !! i = Some rowF'
       /\ rowF !! Z.to_nat (s + nOffset) = Some oldF
       /\ rowF' !! Z.to_nat (s + nOffset)
          = Some (oldF + sample * effective_gain n s g0 g1
                         * diffuseCoefficient (diffuse metadata))%f32)
  /\ map (fun s => effective_gain 2 s F64.zero F64.one) [0; 1; 2; 3]
     = [F32.zero; F32.half; F32.one; F32.one]
  /\ map (fun s => effective_gain 2 s F64.one F64.zero) [0; 1; 2; 3]
     = [F32.one; F32.half; F32.zero; F32.zero].
Proof.
  intros Hcall Hfg Hwrap Hch Hlfe Hg0 Hg1 effective_gain.
  split; [|split; vm_compute; reflexivity].
  exact (ProcessAccumul_slots st st' metadata pIn out0 out nSamples nOffset
           gains n i ch g0 g1 Hcall Hfg Hwrap Hch Hlfe (fun _ => Hg0) Hg1).
Qed.

Lemma C1_interpolated_gains_witness :
  let metadata := Fixture.source 30 true 2 in
  let pIn := replicate 4 F32.one in
  exists st st' out,
    Fixture.after_right Fixture.stereo = Some st
    /\ ProcessAccumul st metadata pIn (Fixture.silence 2 4) 4 0
       = Some (st', out)
    /\ frame_gains st metadata = Some ([F64.one; F64.zero], 2)
    /\ no_wrap 2 4 0
    /\ m_gains st = [F64.zero; F64.one]
    /\ ppDirect out
       = [[F32.zero; F32.half; F32.one; F32.one];
          [F32.one; F32.half; F32.zero; F32.zero]].
Proof.
  intros metadata pIn.
  destruct (Fixture.after_right Fixture.stereo) as [st|] eqn:Hst;
    [|vm_compute in Hst; discriminate].
  destruct (ProcessAccumul st metadata pIn (Fixture.silence 2 4) 4 0)
    as [[st' out]|] eqn:Hcall;
    [|vm_compute in Hst; injection Hst as <-; vm_compute in Hcall;
      discriminate].
  assert (Hfg : frame_gains st metadata = Some ([F64.one; F64.zero], 2)).
  { vm_compute in Hst. injection Hst as <-. reflexivity. }
  assert (Hwrap : no_wrap 2 4 0).
  { unfold no_wrap, INT_MAX, UINT_MOD. lia. }
  assert (Hch : channels (m_layout st) !! 0%nat = Some Fixture.speaker).
  { vm_compute in Hst. injection Hst as <-. reflexivity. }
  assert (Hg0 : m_gains st !! gain_index (channels (m_layout st)) 0
                = Some F64.zero).
  { vm_compute in Hst. injection Hst as <-. reflexivity. }
  assert (Hg1 : [F64.one; F64.zero] !! gain_index (channels (m_layout st)) 0
                = Some F64.one).
  { vm_compute in Hst. injection Hst as <-. reflexivity. }
  pose proof (C1_interpolated_gains st st' metadata pIn (Fixture.silence 2 4)
                out 4 0 [F64.one; F64.zero] 2 0 Fixture.speaker
                F64.zero F64.one Hcall Hfg Hwrap Hch eq_refl Hg0 Hg1)
    as [Hslots _].
  exists st, st', out.
  split; [reflexivity|]. split; [exact Hcall|]. split; [exact Hfg|].
  split; [exact Hwrap|].
  vm_compute in Hst. injection Hst as <-.
  vm_compute in Hcall. injection Hcall as <- <-.
  split; reflexivity.
Defined.

(** C8. For every call to [ProcessAccumul] that returns (with [nSamples] at
    most [INT_MAX] and no index beyond 2^32): every row of the two buses
    keeps its length; the rows of the channels that are LFE, and the rows
    beyond the layout, are unchanged; in the row of a channel that is not LFE
    every slot is either unchanged or its old content plus a contribution,
    and the contribution depends on the gains, the input and the slot but not
    on the content of the buses; the contribution of output channel [c] is
    computed with the gain index [gain_index chs c], the number of channels
    before [c] that are not LFE. *)
Theorem C8_frame_effect {CL ZE : Type} `{Externals CL ZE}
    (st st' : CAdmPointSourcePanner CL ZE) (metadata : ObjectMetadata CL ZE)
    (pIn : list float) (out0 out : Buses) (nSamples nOffset : Z)
    (gains : list double) (n : Z) :
  ProcessAccumul st metadata pIn out0 nSamples nOffset = Some (st', out) ->
  frame_gains st metadata = Some (gains, n) ->
  no_wrap n nSamples nOffset ->
  let chs := channels (m_layout st) in
  let added coeff :=
    channel_slot_contribution gains (m_gains st) pIn n nSamples nOffset coeff
      chs in
  let only_adds coeff (pp0 pp : list (list float)) :=
    forall c row0, pp0 !! c = Some row0 ->
      exists row,
        pp !! c = Some row /\ length row = length row0
        /\ (forall k old, row0 !! k = Some old ->
              row !! k = Some (match added coeff c k with
                               | Some v => (old + v)%f32
                               | None => old
                               end))
        /\ (forall ch, chs !! c = Some ch -> isLFE ch = true -> row = row0)
        /\ (chs !! c = None -> row = row0) in
  only_adds (directCoefficient (diffuse metadata)) (ppDirect out0) (ppDirect out)
  /\ only_adds (diffuseCoefficient (diffuse metadata))
       (ppDiffuse out0) (ppDiffuse out)
  /\ (forall coeff c ch k, chs !! c = Some ch ->
        added coeff c k
        = if isLFE ch then None
          else slot_contribution gains (m_gains st) pIn n nSamples nOffset
                 coeff
                 (length (List.filter (fun ch => negb (isLFE ch)) (take c chs)))
                 k).
Proof.
  intros Hcall Hfg Hwrap chs added only_adds.
  destruct (ProcessAccumul_rows _ _ _ _ _ _ _ _ _ _ Hcall Hfg Hwrap)
    as (HD & HF & _).
  assert (Hrows : forall coeff pp0 pp,
            (forall c row, pp0 !! c = Some row ->
               pp !! c
               = Some (channel_row_after gains (m_gains st) pIn n nSamples
                         nOffset coeff chs 0 c row)) ->
            only_adds coeff pp0 pp).
  { intros coeff pp0 pp Hpp c row0 Hrow0.
    eexists. split; [exact (Hpp c row0 Hrow0)|].
    unfold added, channel_row_after, channel_slot_contribution.
    destruct (chs !! c) as [ch|] eqn:Hc.
    - destruct (isLFE ch) eqn:Hlfe.
      + split; [reflexivity|]. split; [auto|]. split; [auto|discriminate].
      + simpl. split; [apply length_row_after|].
        split; [intros k old Hold; now apply row_after_lookup|].
        split; [|discriminate]. intros ch' [= <-]. congruence.
    - split; [reflexivity|]. split; [auto|]. split; [discriminate|auto]. }
  split; [now apply Hrows|]. split; [now apply Hrows|].
  intros coeff c ch k Hc. unfold added, channel_slot_contribution.
  now rewrite Hc.
Qed.

Lemma C8_frame_effect_witness :
  let metadata := Fixture.source 30 false 0 in
  let pIn := replicate 2 F32.one in
  let out0 := Fixture.silence 3 2 in
  exists st' out,
    ProcessAccumul (new_panner Fixture.stereo_lfe) metadata pIn out0 2 0
    = Some (st', out)
    /\ frame_gains (new_panner Fixture.stereo_lfe) metadata
       = Some ([F64.one; F64.zero], 0)
    /\ no_wrap 0 2 0
    /\ ppDirect out
       = [[F32.one; F32.one]; [F32.zero; F32.zero]; [F32.zero; F32.zero]]
    /\ ppDirect out !! 1%nat = ppDirect out0 !! 1%nat.
Proof.
  intros metadata pIn out0.
  destruct (ProcessAccumul (new_panner Fixture.stereo_lfe) metadata pIn out0 2 0)
    as [[st' out]|] eqn:Hcall; [|vm_compute in Hcall; discriminate].
  assert (Hfg : frame_gains (new_panner Fixture.stereo_lfe) metadata
                = Some ([F64.one; F64.zero], 0)) by reflexivity.
  assert (Hwrap : no_wrap 0 2 0).
  { unfold no_wrap, INT_MAX, UINT_MOD. lia. }
  destruct (C8_frame_effect _ _ _ _ _ _ _ _ _ _ Hcall Hfg Hwrap)
    as (HD & _ & _).
  destruct (HD 1%nat [F32.zero; F32.zero] eq_refl)
    as (row & Hrow & _ & _ & Hlfe & _).
  specialize (Hlfe Fixture.subwoofer eq_refl eq_refl).
  exists st', out. split; [reflexivity|]. split; [exact Hfg|].
  split; [exact Hwrap|].
  split; [|rewrite Hrow, Hlfe; reflexivity].
  vm_compute in Hcall. now injection Hcall as _ <-.
Defined.

(* ===================================================================== *)
(** * Frames without an interpolation window *)
(* ===================================================================== *)

Section NoInterpolation.
Variables (gains : list double) (pIn : list float).
Variables (nSamples nOffset : Z) (directCoeff diffuseCoeff : float).

(** With an interpolation length of 0 the first loop runs no iteration:
    neither [deltaCoeff] nor the previous gains are read. *)
Lemma sample_loops_no_interp (prev1 prev2 : list double) (delta1 delta2 : float)
    (i iCh : nat) (out : Buses) :
  sample_loops gains prev1 pIn 0 nSamples nOffset directCoeff diffuseCoeff
    delta1 i iCh out
  = sample_loops gains prev2 pIn 0 nSamples nOffset directCoeff diffuseCoeff
      delta2 i iCh out.
Proof.
  unfold sample_loops. now rewrite !for_range_empty by lia.
Qed.

Lemma channel_loop_no_interp (prev1 prev2 : list double) (chs : list Channel) :
  forall (i iCh : nat) (out : Buses),
    channel_loop gains prev1 pIn 0 nSamples nOffset directCoeff diffuseCoeff
      chs i iCh out
    = channel_loop gains prev2 pIn 0 nSamples nOffset directCoeff diffuseCoeff
        chs i iCh out.
Proof.
  induction chs as [|ch rest IH]; intros i iCh out; simpl; [reflexivity|].
  destruct (isLFE ch); [apply IH|].
  unfold process_channel.
  rewrite (sample_loops_no_interp prev1 prev2 (deltaCoeff 0) (deltaCoeff 0)).
  destruct (sample_loops _ _ _ _ _ _ _ _ _ _ _ _) as [out1|]; simpl;
    [apply IH|reflexivity].
Qed.

Lemma channel_loop_divisions_zero (chs : list Channel) :
  channel_loop_divisions 0 chs
  = map (fun _ => (F32.one, F32.zero))
      (List.filter (fun ch => negb (isLFE ch)) chs).
Proof.
  induction chs as [|ch rest IH]; simpl; [reflexivity|].
  destruct (isLFE ch); simpl; now rewrite IH.
Qed.

End NoInterpolation.

(** C3 fails as it is stated: when the first of the two calls interpolates
    (new metadata with the jump flag and a length of 2, on an instance whose
    gains were [0, 1]), it adds [0, 0.5, 1, 1] and [1, 0.5, 0, 0] to the
    direct bus, while the second call, with the same metadata and input,
    adds [1, 1, 1, 1] and [0, 0, 0, 0]. *)
Lemma C3_first_call_interpolates :
  let metadata := Fixture.source 30 true 2 in
  let pIn := replicate 4 F32.one in
  let out0 := Fixture.silence 2 4 in
  exists st st1 out1 st2 out2,
    Fixture.after_right Fixture.stereo = Some st
    /\ metadata_eq metadata metadata = true
    /\ ProcessAccumul st metadata pIn out0 4 0 = Some (st1, out1)
    /\ ProcessAccumul st1 metadata pIn out0 4 0 = Some (st2, out2)
    /\ ppDirect out1
       = [[F32.zero; F32.half; F32.one; F32.one];
          [F32.one; F32.half; F32.zero; F32.zero]]
    /\ ppDirect out2
       = [[F32.one; F32.one; F32.one; F32.one];
          [F32.zero; F32.zero; F32.zero; F32.zero]]
    /\ out1 <> out2.
Proof.
  intros metadata pIn out0. eexists _, _, _, _, _.
  split; [vm_compute; reflexivity|]. split; [reflexivity|].
  split; [vm_compute; reflexivity|]. split; [vm_compute; reflexivity|].
  split; [reflexivity|]. split; [reflexivity|]. discriminate.
Qed.

(** C3, amended. For every panner instance and every metadata value [m] that
    compares equal to itself: after a call with [m] that returns, a second
    call with [m] takes the reuse path, that is, its target gains are the
    target gains of the first call and its interpolation length is 0; and
    when the first call had the interpolation length 0 as well, the second
    call, on the same input and the same initial buses, returns the same
    buses (and leaves the state as it is). *)
Theorem C3_reuse_path {CL ZE : Type} `{Externals CL ZE}
    (st st1 : CAdmPointSourcePanner CL ZE) (m : ObjectMetadata CL ZE)
    (pIn : list float) (out0 out1 : Buses) (nSamples nOffset : Z) :
  metadata_eq m m = true ->
  ProcessAccumul st m pIn out0 nSamples nOffset = Some (st1, out1) ->
  exists gains1 n1,
    frame_gains st m = Some (gains1, n1)
    /\ frame_gains st1 m = Some (gains1, 0)
    /\ (n1 = 0 ->
        ProcessAccumul st1 m pIn out0 nSamples nOffset = Some (st1, out1)).
Proof.
  intros Hrefl Hcall.
  apply ProcessAccumul_inv in Hcall as (gains1 & n1 & Hfg & Hloop & ->).
  exists gains1, n1.
  assert (Hreuse :
    frame_gains {| m_layout := m_layout st; m_nCh := m_nCh st;
                   m_gains := gains1; m_metadata := m;
                   m_bFirstFrame := false |} m = Some (gains1, 0)).
  { unfold frame_gains. simpl. now rewrite Hrefl. }
  split; [exact Hfg|]. split; [exact Hreuse|].
  intros ->. unfold ProcessAccumul. rewrite Hreuse. simpl.
  rewrite (channel_loop_no_interp _ _ _ _ _ _ gains1 (m_gains st)), Hloop.
  reflexivity.
Qed.

Lemma C3_reuse_path_witness :
  let m := Fixture.source 30 false 0 in
  let pIn := replicate 4 F32.one in
  let out0 := Fixture.silence 2 4 in
  exists st1 out1,
    metadata_eq m m = true
    /\ ProcessAccumul (new_panner Fixture.stereo) m pIn out0 4 0
       = Some (st1, out1)
    /\ ProcessAccumul st1 m pIn out0 4 0 = Some (st1, out1)
    /\ ppDirect out1
       = [[F32.one; F32.one; F32.one; F32.one];
          [F32.zero; F32.zero; F32.zero; F32.zero]].
Proof.
  intros m pIn out0.
  destruct (ProcessAccumul (new_panner Fixture.stereo) m pIn out0 4 0)
    as [[st1 out1]|] eqn:Hcall; [|vm_compute in Hcall; discriminate].
  assert (Hrefl : metadata_eq m m = true) by reflexivity.
  destruct (C3_reuse_path (new_panner Fixture.stereo) st1 m pIn out0 out1 4 0
              Hrefl Hcall) as (gains1 & n1 & Hfg & _ & Hsecond).
  assert (Hn1 : n1 = 0).
  { vm_compute in Hfg. now injection Hfg as _ <-. }
  exists st1, out1. split; [reflexivity|]. split; [reflexivity|].
  split; [exact (Hsecond Hn1)|].
  vm_compute in Hcall. now injection Hcall as _ <-.
Defined.

(** C9 fails as it is stated: the division is not guarded.  On the first
    frame of an instance (interpolation length 0) the call executes
    [1.f / (float)0] once for each of the two channels; the divisor is
    zero and the quotient is +infinity. *)
Lemma C9_division_by_zero_executed :
  let metadata := Fixture.source 30 false 0 in
  let st := new_panner Fixture.stereo in
  frame_gains st metadata = Some ([F64.one; F64.zero], 0)
  /\ is_Some (ProcessAccumul st metadata (replicate 4 F32.one)
                (Fixture.silence 2 4) 4 0)
  /\ ProcessAccumul_divisions st metadata
     = Some [(F32.one, F32.zero); (F32.one, F32.zero)]
  /\ F32.of_int 0 = F32.zero
  /\ (F32.one / F32.zero)%f32 = S754_infinity false.
Proof.
  intros metadata st.
  split; [reflexivity|]. split; [vm_compute; eauto|].
  split; [reflexivity|]. split; reflexivity.
Qed.

(** C9, amended. The division by the interpolation sample count is not
    guarded.  In every call that returns with the interpolation length 0,
    [1.f / (float)nInterpSamples] is executed once for every channel that is
    not LFE, with the divisor zero, and yields +infinity; the quotient is not
    used, since the interpolation loop then runs no iteration (the two loops
    return the same for any other value of [deltaCoeff] and of the previous
    gains); and the case is one of no interpolation window: in every channel
    that is not LFE the target gain is applied to every sample of the
    frame. *)
Theorem C9_zero_interpolation_length {CL ZE : Type} `{Externals CL ZE}
    (st st' : CAdmPointSourcePanner CL ZE) (metadata : ObjectMetadata CL ZE)
    (pIn : list float) (out0 out : Buses) (nSamples nOffset : Z)
    (gains : list double) :
  ProcessAccumul st metadata pIn out0 nSamples nOffset = Some (st', out) ->
  frame_gains st metadata = Some (gains, 0) ->
  no_wrap 0 nSamples nOffset ->
  let chs := channels (m_layout st) in
  let directCoeff := directCoefficient (diffuse metadata) in
  let diffuseCoeff := diffuseCoefficient (diffuse metadata) in
  (ProcessAccumul_divisions st metadata
   = Some (map (fun _ => (F32.one, F32.of_int 0))
             (List.filter (fun ch => negb (isLFE ch)) chs))
   /\ F32.of_int 0 = F32.zero
   /\ deltaCoeff 0 = S754_infinity false)
  /\ (forall prev_gains delta i iCh o,
        sample_loops gains prev_gains pIn 0 nSamples nOffset directCoeff
          diffuseCoeff delta i iCh o
        = sample_loops gains (m_gains st) pIn 0 nSamples nOffset directCoeff
            diffuseCoeff (deltaCoeff 0) i iCh o)
  /\ (forall i ch g1,
        chs !! i = Some ch -> isLFE ch = false ->
        gains !! gain_index chs i = Some g1 ->
        forall s, 0 <= s < nSamples ->
          exists sample rowD rowD' oldD rowF rowF' oldF,
            pIn !! Z.to_nat s = Some sample
            /\ ppDirect out0 !! i = Some rowD /\ ppDirect out !! i = Some rowD'
            /\ rowD !! Z.to_nat (s + nOffset) = Some oldD
            /\ rowD' !! Z.to_nat (s + nOffset)
               = Some (oldD + sample * F32.of_double g1 * directCoeff)%f32
            /\ ppDiffuse out0 !! i = Some rowF
            /\ ppDiffuse out !! i = Some rowF'
            /\ rowF !! Z.to_nat (s + nOffset) = Some oldF
            /\ rowF' !! Z.to_nat (s + nOffset)
               = Some (oldF + sample * F32.of_double g1 * diffuseCoeff)%f32).
Proof.
  intros Hcall Hfg Hwrap chs directCoeff diffuseCoeff.
  split; [|split].
  - split; [|split; reflexivity].
    unfold ProcessAccumul_divisions. rewrite Hfg. simpl.
    now rewrite channel_loop_divisions_zero.
  - intros prev_gains delta i iCh o. apply sample_loops_no_interp.
  - intros i ch g1 Hch Hlfe Hg1 s Hs.
    assert (Hg0 : 0 < 0 ->
                  m_gains st !! gain_index (channels (m_layout st)) i
                  = Some g1) by lia.
    destruct (ProcessAccumul_slots st st' metadata pIn out0 out nSamples
                nOffset gains 0 i ch g1 g1 Hcall Hfg Hwrap Hch Hlfe Hg0 Hg1 s)
      as (sample & rowD & rowD' & oldD & rowF & rowF' & oldF & Hslot);
      [lia|].
    unfold effective_gain in Hslot.
    destruct (Z.ltb_spec s 0) as [Hneg|_]; [lia|].
    exists sample, rowD, rowD', oldD, rowF, rowF', oldF. exact Hslot.
Qed.

Lemma C9_zero_interpolation_length_witness :
  let metadata := Fixture.source 30 false 0 in
  let st := new_panner Fixture.stereo in
  let pIn := replicate 4 F32.one in
  exists st' out,
    ProcessAccumul st metadata pIn (Fixture.silence 2 4) 4 0 = Some (st', out)
    /\ frame_gains st metadata = Some ([F64.one; F64.zero], 0)
    /\ no_wrap 0 4 0
    /\ ProcessAccumul_divisions st metadata
       = Some [(F32.one, F32.zero); (F32.one, F32.zero)]
    /\ ppDirect out
       = [[F32.one; F32.one; F32.one; F32.one];
          [F32.zero; F32.zero; F32.zero; F32.zero]].
Proof.
  intros metadata st pIn.
  destruct (ProcessAccumul st metadata pIn (Fixture.silence 2 4) 4 0)
    as [[st' out]|] eqn:Hcall; [|vm_compute in Hcall; discriminate].
  assert (Hfg : frame_gains st metadata = Some ([F64.one; F64.zero], 0))
    by reflexivity.
  assert (Hwrap : no_wrap 0 4 0).
  { unfold no_wrap, INT_MAX, UINT_MOD. lia. }
  destruct (C9_zero_interpolation_length st st' metadata pIn
              (Fixture.silence 2 4) out 4 0 _ Hcall Hfg Hwrap)
    as ((Hdiv & _) & _).
  exists st', out. split; [reflexivity|]. split; [exact Hfg|].
  split; [exact Hwrap|]. split; [exact Hdiv|].
  vm_compute in Hcall. now injection Hcall as _ <-.
Defined.

(* ===================================================================== *)
(** * Calls within bounds *)
(* ===================================================================== *)

Section ChannelLoopProgress.
Variables (gains prev_gains : list double) (pIn : list float).
Variables (nInterpSamples nSamples nOffset : Z).
Variables (directCoeff diffuseCoeff : float).

Lemma process_channel_progress (i iCh : nat) (out0 : Buses)
    (rowD rowF : list float) :
  no_wrap nInterpSamples nSamples nOffset -> 0 <= nInterpSamples ->
  (forall s, 0 <= s < nInterpSamples ->
     is_Some (interp_sampleData gains prev_gains pIn
                (deltaCoeff nInterpSamples) iCh s)) ->
  (forall s, nInterpSamples <= s < nSamples ->
     is_Some (plain_sampleData gains pIn iCh s)) ->
  ppDirect out0 !! i = Some rowD -> ppDiffuse out0 !! i = Some rowF ->
  Z.max nInterpSamples nSamples + nOffset <= Z.of_nat (length rowD) ->
  Z.max nInterpSamples nSamples + nOffset <= Z.of_nat (length rowF) ->
  is_Some (process_channel gains prev_gains pIn nInterpSamples nSamples
             nOffset directCoeff diffuseCoeff i iCh out0).
Proof.
  intros (Hoff & HnS & Hwrap) Hpos Hinterp Hplain HrowD HrowF HlenD HlenF.
  unfold process_channel, sample_loops. rewrite (to_int_small nSamples HnS).
  destruct (sample_loop_progress nOffset directCoeff diffuseCoeff i
              (interp_sampleData gains prev_gains pIn
                 (deltaCoeff nInterpSamples) iCh)
              0 nInterpSamples out0 rowD rowF) as [out1 Hfirst];
    try assumption; try lia.
  rewrite Hfirst. simpl.
  destruct (Z.le_gt_cases nSamples nInterpSamples) as [Hempty|Hlt].
  - rewrite for_range_empty by exact Hempty. eauto.
  - apply sample_loop_spec in Hfirst as (HD1 & HF1 & _); [|lia|lia|lia].
    eapply (sample_loop_progress nOffset directCoeff diffuseCoeff i
              (plain_sampleData gains pIn iCh) nInterpSamples nSamples out1);
      try assumption; try lia.
    + rewrite HD1, list_lookup_alter_eq, HrowD. reflexivity.
    + rewrite HF1, list_lookup_alter_eq, HrowF. reflexivity.
    + rewrite length_imap. lia.
    + rewrite length_imap. lia.
Qed.

Lemma channel_loop_progress (chs : list Channel) :
  no_wrap nInterpSamples nSamples nOffset -> 0 <= nInterpSamples ->
  forall (i iCh : nat) (out0 : Buses),
    (forall p ch, chs !! p = Some ch -> isLFE ch = false ->
       (forall s, 0 <= s < nInterpSamples ->
          is_Some (interp_sampleData gains prev_gains pIn
                     (deltaCoeff nInterpSamples)
                     (iCh + gain_index chs p) s))
       /\ (forall s, nInterpSamples <= s < nSamples ->
             is_Some (plain_sampleData gains pIn
                        (iCh + gain_index chs p) s))) ->
    (forall p, (p < length chs)%nat ->
       exists rowD rowF,
         ppDirect out0 !! (i + p)%nat = Some rowD
         /\ ppDiffuse out0 !! (i + p)%nat = Some rowF
         /\ Z.max nInterpSamples nSamples + nOffset <= Z.of_nat (length rowD)
         /\ Z.max nInterpSamples nSamples + nOffset <= Z.of_nat (length rowF)) ->
    is_Some (channel_loop gains prev_gains pIn nInterpSamples nSamples nOffset
               directCoeff diffuseCoeff chs i iCh out0).
Proof.
  intros Hwrap Hpos.
  induction chs as [|ch rest IH]; intros i iCh out0 Hdata Hrows; simpl;
    [eauto|].
  assert (Hrows' : forall out1,
            (forall c, c <> i -> ppDirect out1 !! c = ppDirect out0 !! c) ->
            (forall c, c <> i -> ppDiffuse out1 !! c = ppDiffuse out0 !! c) ->
            forall p, (p < length rest)%nat ->
              exists rowD rowF,
                ppDirect out1 !! (S i + p)%nat = Some rowD
                /\ ppDiffuse out1 !! (S i + p)%nat = Some rowF
                /\ Z.max nInterpSamples nSamples + nOffset
                   <= Z.of_nat (length rowD)
                /\ Z.max nInterpSamples nSamples + nOffset
                   <= Z.of_nat (length rowF)).
  { intros out1 HD HF p Hp. rewrite HD, HF by lia.
    replace (S i + p)%nat with (i + S p)%nat by lia.
    apply Hrows. simpl. lia. }
  destruct (isLFE ch) eqn:Hlfe.
  - apply IH; [|apply Hrows'; auto].
    intros p ch' Hp Hch'. specialize (Hdata (S p) ch' Hp Hch').
    now rewrite gain_index_S, Hlfe in Hdata.
  - destruct (Hrows 0%nat) as (rowD & rowF & HrowD & HrowF & HlenD & HlenF);
      [simpl; lia|].
    rewrite Nat.add_0_r in HrowD, HrowF.
    destruct (Hdata 0%nat ch eq_refl Hlfe) as [Hinterp Hplain].
    rewrite gain_index_0, Nat.add_0_r in Hinterp, Hplain.
    destruct (process_channel_progress i iCh out0 rowD rowF)
      as [out1 Hch]; try assumption.
    rewrite Hch. simpl.
    apply process_channel_spec in Hch as (HD1 & HF1 & _); [|exact Hwrap].
    apply IH.
    + intros p ch' Hp Hch'. specialize (Hdata (S p) ch' Hp Hch').
      rewrite gain_index_S, Hlfe in Hdata.
      now replace (S iCh + gain_index rest p)%nat
        with (iCh + (1 + gain_index rest p))%nat by lia.
    + apply Hrows'.
      * intros c Hc. rewrite HD1. now apply list_lookup_alter_ne.
      * intros c Hc. rewrite HF1. now apply list_lookup_alter_ne.
Qed.

End ChannelLoopProgress.

Lemma slot_contribution_outside (gains prev_gains : list double)
    (pIn : list float) (n nSamples nOffset : Z) (coeff : float) (iCh k : nat) :
  0 <= n -> 0 <= nSamples <= INT_MAX ->
  Z.of_nat k < nOffset \/ nOffset + Z.max n nSamples <= Z.of_nat k ->
  slot_contribution gains prev_gains pIn n nSamples nOffset coeff iCh k = None.
Proof.
  intros Hn HnS Hk. unfold slot_contribution.
  rewrite (to_int_small nSamples HnS). case_bounds.
Qed.

Section InBounds.
Context {CL ZE : Type} `{Externals CL ZE}.

(** A call returns when the input has a sample, and both buses a slot, for
    every index the loops visit, and the gain vectors an entry for every
    channel that is not LFE. *)
Lemma ProcessAccumul_in_bounds (st : CAdmPointSourcePanner CL ZE)
    (metadata : ObjectMetadata CL ZE) (pIn : list float) (out0 : Buses)
    (nSamples nOffset : Z) (gains : list double) (n : Z) :
  frame_gains st metadata = Some (gains, n) ->
  no_wrap n nSamples nOffset -> 0 <= n ->
  Z.max n nSamples <= Z.of_nat (length pIn) ->
  (forall c, (c < length (channels (m_layout st)))%nat ->
     exists rowD rowF,
       ppDirect out0 !! c = Some rowD /\ ppDiffuse out0 !! c = Some rowF
       /\ Z.max n nSamples + nOffset <= Z.of_nat (length rowD)
       /\ Z.max n nSamples + nOffset <= Z.of_nat (length rowF)) ->
  (length (List.filter (fun ch => negb (isLFE ch)) (channels (m_layout st)))
   <= length gains)%nat ->
  (length (List.filter (fun ch => negb (isLFE ch)) (channels (m_layout st)))
   <= length (m_gains st))%nat ->
  is_Some (ProcessAccumul st metadata pIn out0 nSamples nOffset).
Proof.
  intros Hfg Hwrap Hn HpIn Hrows Hgains Hprev.
  unfold ProcessAccumul. rewrite Hfg. simpl.
  destruct (channel_loop_progress gains (m_gains st) pIn n nSamples nOffset
              (directCoefficient (diffuse metadata))
              (diffuseCoefficient (diffuse metadata))
              (channels (m_layout st)) Hwrap Hn 0 0 out0) as [out Hloop].
  - intros p ch Hp Hch. pose proof (gain_index_lt _ _ _ Hp Hch) as Hidx.
    simpl.
    destruct (lookup_lt_is_Some_2 gains
                (gain_index (channels (m_layout st)) p)) as [g Hg]; [lia|].
    destruct (lookup_lt_is_Some_2 (m_gains st)
                (gain_index (channels (m_layout st)) p)) as [gp Hgp]; [lia|].
    split; intros s Hs.
    + destruct (lookup_lt_is_Some_2 pIn (Z.to_nat s)) as [v Hv]; [lia|].
      eexists. apply interp_sampleData_Some.
      exists v, g, gp. repeat split; try assumption; lia.
    + destruct (lookup_lt_is_Some_2 pIn (Z.to_nat s)) as [v Hv]; [lia|].
      eexists. apply plain_sampleData_Some.
      exists v, g. repeat split; try assumption; lia.
  - intros p Hp. simpl. now apply Hrows.
  - rewrite Hloop. simpl. eauto.
Qed.

End InBounds.

(** C10 fails as it is stated: an interpolation length of -1 is at most
    [nSamples], and the second loop then starts at [iSample = -1] and reads
    [pIn[-1]]: the call is out of bounds although the input has [nSamples]
    samples and the rows [nOffset + nSamples] slots. *)
Lemma C10_negative_interpolation_length :
  let metadata := Fixture.source 30 true (-1) in
  let nSamples := 4 in
  exists st gains n,
    Fixture.after_right Fixture.stereo = Some st
    /\ frame_gains st metadata = Some (gains, n)
    /\ n = -1 /\ n <= nSamples
    /\ no_wrap n nSamples 0
    /\ ProcessAccumul st metadata (replicate 4 F32.one) (Fixture.silence 2 4)
         nSamples 0 = None
    /\ read_sample (replicate 4 F32.one) n = None.
Proof.
  intros metadata nSamples. eexists _, _, _.
  split; [vm_compute; reflexivity|]. split; [vm_compute; reflexivity|].
  split; [reflexivity|]. split; [lia|].
  split; [unfold no_wrap, INT_MAX, UINT_MOD; lia|].
  split; vm_compute; reflexivity.
Qed.

Lemma channel_row_after_outside (gains prev_gains : list double)
    (pIn : list float) (n nSamples nOffset : Z) (coeff : float)
    (chs : list Channel) (c k : nat) (row : list float) :
  0 <= n -> 0 <= nSamples <= INT_MAX ->
  Z.of_nat k < nOffset \/ nOffset + Z.max n nSamples <= Z.of_nat k ->
  channel_row_after gains prev_gains pIn n nSamples nOffset coeff chs 0 c row
    !! k = row !! k.
Proof.
  intros Hn HnS Hk. unfold channel_row_after.
  destruct (chs !! c) as [ch|]; [|reflexivity].
  destruct (isLFE ch); [reflexivity|].
  destruct (row !! k) as [old|] eqn:Hold.
  - rewrite (row_after_lookup _ _ _ _ _ _ _ _ _ _ _ Hold).
    now rewrite slot_contribution_outside.
  - apply lookup_ge_None. rewrite length_row_after.
    now apply lookup_ge_None.
Qed.

Lemma length_channel_row_after (gains prev_gains : list double)
    (pIn : list float) (n nSamples nOffset : Z) (coeff : float)
    (chs : list Channel) (c : nat) (row : list float) :
  length (channel_row_after gains prev_gains pIn n nSamples nOffset coeff
            chs 0 c row) = length row.
Proof.
  unfold channel_row_after.
  destruct (chs !! c) as [ch|]; [|reflexivity].
  destruct (isLFE ch); [reflexivity|apply length_row_after].
Qed.

(** C10, amended. Under the precondition that the interpolation length is
    at least 0 and at most [nSamples], a call whose input has exactly
    [nSamples] samples and whose rows have exactly [nOffset + nSamples] slots
    (one row for each channel of the layout, the gain vectors with an entry
    for each channel that is not LFE, [nSamples] at most [INT_MAX] and no
    index beyond 2^32) returns: no read or write is out of bounds, and the
    slots before [nOffset] are left as they are.  For an interpolation
    length above [nSamples] the first loop runs to the interpolation length:
    with a length of 3 and [nSamples = 2] the call is out of bounds on an
    input of 2 samples and on rows of 2 slots, and with 3 samples and 3
    slots it reads [pIn[2]] and writes slot 2 of the rows. *)
Theorem C10_sample_bounds {CL ZE : Type} `{Externals CL ZE}
    (st : CAdmPointSourcePanner CL ZE) (metadata : ObjectMetadata CL ZE)
    (pIn : list float) (out0 : Buses) (nSamples nOffset : Z)
    (gains : list double) (n : Z) :
  frame_gains st metadata = Some (gains, n) ->
  0 <= n <= nSamples ->
  no_wrap n nSamples nOffset ->
  Z.of_nat (length pIn) = nSamples ->
  let chs := channels (m_layout st) in
  let nCh := length (List.filter (fun ch => negb (isLFE ch)) chs) in
  bus_sized (ppDirect out0) (length chs) (nOffset + nSamples) ->
  bus_sized (ppDiffuse out0) (length chs) (nOffset + nSamples) ->
  (nCh <= length gains)%nat -> (nCh <= length (m_gains st))%nat ->
  (exists st' out,
     ProcessAccumul st metadata pIn out0 nSamples nOffset = Some (st', out)
     /\ (forall c row, ppDirect out0 !! c = Some row ->
           exists row', ppDirect out !! c = Some row'
             /\ length row' = length row
             /\ forall k, Z.of_nat k < nOffset -> row' !! k = row !! k)
     /\ (forall c row, ppDiffuse out0 !! c = Some row ->
           exists row', ppDiffuse out !! c = Some row'
             /\ length row' = length row
             /\ forall k, Z.of_nat k < nOffset -> row' !! k = row !! k))
  /\ (let jump := Fixture.source 30 true 3 in
      let ones k := replicate k F32.one in
      exists prev st' out,
        Fixture.after_right Fixture.stereo = Some prev
        /\ frame_gains prev jump = Some ([F64.one; F64.zero], 3)
        /\ ProcessAccumul prev jump (ones 2%nat) (Fixture.silence 2 2) 2 0 = None
        /\ ProcessAccumul prev jump (ones 2%nat) (Fixture.silence 2 3) 2 0 = None
        /\ ProcessAccumul prev jump (ones 3%nat) (Fixture.silence 2 2) 2 0 = None
        /\ ProcessAccumul prev jump (ones 3%nat) (Fixture.silence 2 3) 2 0
           = Some (st', out)
        /\ ppDirect out
           = [[F32.zero; S754_finite false 11184811 (-25);
               S754_finite false 11184811 (-24)];
              [F32.one; S754_finite false 11184810 (-24);
               S754_finite false 11184810 (-25)]]).
Proof.
  intros Hfg Hn Hwrap HpIn chs nCh [HlenD HrowsD] [HlenF HrowsF] Hgains Hprev.
  split.
  - destruct (ProcessAccumul_in_bounds st metadata pIn out0 nSamples nOffset
                gains n Hfg Hwrap) as [[st' out] Hcall];
      try assumption; try lia.
    { intros c Hc.
      destruct (lookup_lt_is_Some_2 (ppDirect out0) c) as [rowD HrowD];
        [fold chs in Hc; lia|].
      destruct (lookup_lt_is_Some_2 (ppDiffuse out0) c) as [rowF HrowF];
        [fold chs in Hc; lia|].
      exists rowD, rowF. split; [exact HrowD|]. split; [exact HrowF|].
      rewrite (HrowsD c rowD HrowD), (HrowsF c rowF HrowF). lia. }
    exists st', out. split; [exact Hcall|].
    destruct (ProcessAccumul_rows _ _ _ _ _ _ _ _ _ _ Hcall Hfg Hwrap)
      as (HD & HF & _).
    destruct Hwrap as (_ & HnS & _).
    split; intros c row Hrow; eexists;
      (split; [eauto|]; split; [apply length_channel_row_after|]);
      intros k Hk; apply channel_row_after_outside; (lia || auto).
  - intros jump ones. eexists _, _, _.
    split; [vm_compute; reflexivity|]. split; [vm_compute; reflexivity|].
    split; [vm_compute; reflexivity|]. split; [vm_compute; reflexivity|].
    split; [vm_compute; reflexivity|]. split; [vm_compute; reflexivity|].
    reflexivity.
Qed.

Lemma C10_sample_bounds_witness :
  let metadata := Fixture.source 30 true 2 in
  let pIn := replicate 4 F32.one in
  let out0 := Fixture.silence 2 5 in
  exists st st' out,
    Fixture.after_right Fixture.stereo = Some st
    /\ frame_gains st metadata = Some ([F64.one; F64.zero], 2)
    /\ 0 <= 2 <= 4
    /\ no_wrap 2 4 1
    /\ Z.of_nat (length pIn) = 4
    /\ bus_sized (ppDirect out0) 2 (1 + 4)
    /\ bus_sized (ppDiffuse out0) 2 (1 + 4)
    /\ ProcessAccumul st metadata pIn out0 4 1 = Some (st', out)
    /\ ppDirect out
       = [[F32.zero; F32.zero; F32.half; F32.one; F32.one];
          [F32.zero; F32.one; F32.half; F32.zero; F32.zero]].
Proof.
  intros metadata pIn out0.
  destruct (Fixture.after_right Fixture.stereo) as [st|] eqn:Hst;
    [|vm_compute in Hst; discriminate].
  assert (Hfg : frame_gains st metadata = Some ([F64.one; F64.zero], 2)).
  { vm_compute in Hst. injection Hst as <-. reflexivity. }
  assert (Hwrap : no_wrap 2 4 1).
  { unfold no_wrap, INT_MAX, UINT_MOD. lia. }
  assert (Hlayout : channels (m_layout st) = channels Fixture.stereo).
  { vm_compute in Hst. injection Hst as <-. reflexivity. }
  assert (Hprev : m_gains st = [F64.zero; F64.one]).
  { vm_compute in Hst. injection Hst as <-. reflexivity. }
  assert (Hsized : forall pp, pp = replicate 2 (replicate 5 F32.zero) ->
                     bus_sized pp 2 (1 + 4)).
  { intros pp ->. split; [reflexivity|].
    intros [|[|c]] row Hrow; simpl in Hrow; try discriminate;
      injection Hrow as <-; reflexivity. }
  destruct (C10_sample_bounds st metadata pIn out0 4 1 [F64.one; F64.zero] 2
              Hfg ltac:(lia) Hwrap eq_refl)
    as [(st' & out & Hcall & _) _].
  - rewrite Hlayout. now apply Hsized.
  - rewrite Hlayout. now apply Hsized.
  - rewrite Hlayout. simpl. lia.
  - rewrite Hlayout, Hprev. simpl. lia.
  - exists st, st', out. split; [reflexivity|]. split; [exact Hfg|].
    split; [lia|]. split; [exact Hwrap|]. split; [reflexivity|].
    split; [now apply Hsized|]. split; [now apply Hsized|].
    split; [exact Hcall|].
    vm_compute in Hst. injection Hst as <-.
    vm_compute in Hcall. now injection Hcall as _ <-.
Defined.

(* ===================================================================== *)
(** * The constructor and the length of the gain vector *)
(* ===================================================================== *)

Lemma count_nonLFE_spec (chs : list Channel) :
  forall nCh : Z,
    0 <= nCh -> nCh + Z.of_nat (length chs) < UINT_MOD ->
    count_nonLFE chs nCh = nCh + Z.of_nat (nonLFE_count chs).
Proof.
  unfold nonLFE_count.
  induction chs as [|ch rest IH]; intros nCh Hpos Hlt; simpl in *; [lia|].
  destruct (isLFE ch); simpl.
  - apply IH; lia.
  - rewrite to_unsigned_small by lia. rewrite IH by lia. lia.
Qed.

Lemma nonLFE_count_le (chs : list Channel) :
  (nonLFE_count chs <= length chs)%nat.
Proof. unfold nonLFE_count. apply List.filter_length_le. Qed.

(** X1. The constructor counts the channels that are not LFE: for a layout
    of fewer than 2^32 channels, [m_nCh] is their number and [m_gains] is
    that many zeros. *)
Theorem X1_constructor_counts {CL ZE : Type} `{Externals CL ZE}
    (targetLayout : Layout) :
  Z.of_nat (length (channels targetLayout)) < UINT_MOD ->
  m_nCh (new_panner targetLayout)
  = Z.of_nat (nonLFE_count (channels targetLayout))
  /\ m_gains (new_panner targetLayout)
     = replicate (nonLFE_count (channels targetLayout)) F64.zero
  /\ m_layout (new_panner targetLayout) = targetLayout.
Proof.
  intros Hlen. unfold new_panner. cbn [m_nCh m_gains m_layout].
  rewrite count_nonLFE_spec by lia. rewrite Z.add_0_l, Nat2Z.id.
  repeat split.
Qed.

Lemma X1_constructor_counts_witness :
  Z.of_nat (length (channels Fixture.stereo_lfe)) < UINT_MOD
  /\ m_nCh (new_panner Fixture.stereo_lfe) = 2
  /\ m_gains (new_panner Fixture.stereo_lfe) = [F64.zero; F64.zero].
Proof.
  assert (Hlen : Z.of_nat (length (channels Fixture.stereo_lfe)) < UINT_MOD)
    by (unfold UINT_MOD; simpl; lia).
  split; [exact Hlen|].
  destruct (X1_constructor_counts Fixture.stereo_lfe Hlen) as (HnCh & Hg & _).
  split; [exact HnCh | exact Hg].
Defined.

Section GainLength.
Context {CL ZE : Type} `{Externals CL ZE}.

Lemma recomputed_gains_length (st : CAdmPointSourcePanner CL ZE)
    (metadata : ObjectMetadata CL ZE) (gains : list double) :
  (forall l ze g, length (zoneExclusion_handle l ze g) = length g) ->
  0 <= m_nCh st <= INT_MAX ->
  recomputed_gains st metadata = Some gains ->
  length gains = Z.to_nat (m_nCh st).
Proof.
  intros Hzone HnCh Hre. unfold recomputed_gains in Hre.
  destruct (power_summed_gains st metadata) as [pre|] eqn:Hpre;
    [|discriminate].
  simpl in Hre. injection Hre as <-.
  rewrite length_map, Hzone.
  now apply power_summation_formula in Hpre as [Hlen _].
Qed.

Lemma run_layout (st0 st : CAdmPointSourcePanner CL ZE) (frames : list Frame) :
  run st0 frames = Some st ->
  m_layout st = m_layout st0 /\ m_nCh st = m_nCh st0.
Proof.
  revert st0. induction frames as [|fr rest IH]; intros st0; simpl.
  - intros [= <-]. split; reflexivity.
  - destruct (ProcessAccumul st0 _ _ _ _ _) as [[st1 out1]|] eqn:Hcall;
      [|discriminate].
    intros Hrest. destruct (IH st1 Hrest) as [-> ->].
    apply ProcessAccumul_inv in Hcall as (g & n & _ & _ & ->).
    split; reflexivity.
Qed.

Lemma run_gains_length (st0 st : CAdmPointSourcePanner CL ZE)
    (frames : list Frame) :
  (forall l ze g, length (zoneExclusion_handle l ze g) = length g) ->
  0 <= m_nCh st0 <= INT_MAX ->
  length (m_gains st0) = Z.to_nat (m_nCh st0) ->
  run st0 frames = Some st ->
  length (m_gains st) = Z.to_nat (m_nCh st).
Proof.
  intros Hzone. revert st0.
  induction frames as [|fr rest IH]; intros st0 HnCh Hlen; simpl.
  - now intros [= <-].
  - destruct (ProcessAccumul st0 _ _ _ _ _) as [[st1 out1]|] eqn:Hcall;
      [|discriminate].
    apply ProcessAccumul_inv in Hcall as (g & n & Hfg & _ & ->).
    apply IH; simpl; [exact HnCh|].
    apply frame_gains_inv in Hfg as [(_ & Hre & _)|(_ & -> & _)];
      [|exact Hlen].
    now apply (recomputed_gains_length st0 (fr_metadata fr)).
Qed.

End GainLength.

(** X2. The gain vector keeps its length: when the zone exclusion returns as
    many gains as it is given, then in every state reached from the
    constructor (layout of at most [INT_MAX] channels) [m_gains] has exactly
    [m_nCh] entries, one for each channel that is not LFE, and the layout and
    [m_nCh] are those of the constructor. *)
Theorem X2_gain_vector_length {CL ZE : Type} `{Externals CL ZE}
    (targetLayout : Layout) (frames : list Frame)
    (st : CAdmPointSourcePanner CL ZE) :
  (forall l ze g, length (zoneExclusion_handle l ze g) = length g) ->
  Z.of_nat (length (channels targetLayout)) <= INT_MAX ->
  run (new_panner targetLayout) frames = Some st ->
  length (m_gains st) = nonLFE_count (channels targetLayout)
  /\ m_nCh st = Z.of_nat (nonLFE_count (channels targetLayout))
  /\ m_layout st = targetLayout.
Proof.
  intros Hzone Hlen Hrun.
  assert (Hlt : Z.of_nat (length (channels targetLayout)) < UINT_MOD)
    by (unfold INT_MAX, UINT_MOD in *; lia).
  pose proof (count_nonLFE_spec (channels targetLayout) 0 ltac:(lia) Hlt)
    as Hcount.
  pose proof (nonLFE_count_le (channels targetLayout)) as Hle.
  destruct (run_layout _ _ _ Hrun) as [Hlayout HnCh].
  cbn [new_panner m_layout m_nCh] in Hlayout, HnCh.
  rewrite Hcount, Z.add_0_l in HnCh.
  split; [|split; assumption].
  rewrite (run_gains_length (new_panner targetLayout) st frames Hzone);
    try assumption.
  - rewrite HnCh. apply Nat2Z.id.
  - cbn [new_panner m_nCh]. rewrite Hcount. lia.
  - cbn [new_panner m_nCh m_gains]. now rewrite length_replicate.
Qed.

Lemma X2_gain_vector_length_witness :
  let frames :=
    [ {| fr_metadata := Fixture.source (-30) false 0; fr_pIn := [];
         fr_out := Fixture.silence 0 0; fr_nSamples := 0; fr_nOffset := 0 |};
      {| fr_metadata := Fixture.source 30 true 2;
         fr_pIn := replicate 4 F32.one; fr_out := Fixture.silence 3 4;
         fr_nSamples := 4; fr_nOffset := 0 |} ] in
  exists st,
    (forall (l : Layout) (ze : unit) (g : list double),
       length (zoneExclusion_handle l ze g) = length g)
    /\ Z.of_nat (length (channels Fixture.stereo_lfe)) <= INT_MAX
    /\ run (new_panner Fixture.stereo_lfe) frames = Some st
    /\ length (m_gains st) = 2%nat.
Proof.
  intros frames.
  destruct (run (new_panner Fixture.stereo_lfe) frames) as [st|] eqn:Hrun;
    [|vm_compute in Hrun; discriminate].
  assert (Hzone : forall (l : Layout) (ze : unit) (g : list double),
            length (zoneExclusion_handle l ze g) = length g)
    by (intros; reflexivity).
  assert (Hlen : Z.of_nat (length (channels Fixture.stereo_lfe)) <= INT_MAX)
    by (unfold INT_MAX; simpl; lia).
  exists st. split; [exact Hzone|]. split; [exact Hlen|].
  split; [reflexivity|].
  exact (proj1 (X2_gain_vector_length Fixture.stereo_lfe frames st
                  Hzone Hlen Hrun)).
Defined.

(* ===================================================================== *)
(** * The gain computation within bounds *)
(* ===================================================================== *)

Section PowerSumBounds.
Variables (weights : list double) (gains_for_each_pos : list (list double)).

(** The inner loop for channel [i] returns exactly when every diverged
    source has a gain for channel [i]. *)
Lemma power_sum_channel_reads (i : Z) (v : double) :
  0 <= i ->
  power_sum_channel weights gains_for_each_pos i = Some v ->
  forall j : nat, (j < length weights)%nat ->
    exists row, gains_for_each_pos !! j = Some row
                /\ (Z.to_nat i < length row)%nat.
Proof.
  intros Hi Hsum. unfold power_sum_channel, for_range in Hsum.
  destruct (for_loop _ _ _ _) as [g_tmp|] eqn:Hloop; [|discriminate].
  enough (Hinv : forall j' : nat,
            Z.of_nat j'
            < 0 + Z.of_nat (Z.to_nat (Z.of_nat (length weights) - 0)) ->
            exists row, gains_for_each_pos !! j' = Some row
                        /\ (Z.to_nat i < length row)%nat)
    by (intros j Hj; apply Hinv; lia).
  apply (for_loop_invariant
           (fun j (_ : double) =>
              forall j' : nat, Z.of_nat j' < j ->
                exists row, gains_for_each_pos !! j' = Some row
                            /\ (Z.to_nat i < length row)%nat)
           _ _ _ _ _ Hloop).
  - intros j' Hj'. lia.
  - intros j acc acc' Hj Hinv Hbody j' Hj'.
    destruct (weights !! Z.to_nat j) as [w|]; [|discriminate].
    simpl in Hbody.
    destruct (gains_for_each_pos !! Z.to_nat j) as [row|] eqn:Hrow;
      [|discriminate].
    simpl in Hbody.
    destruct (row !! Z.to_nat i) as [g|] eqn:Hg; [|discriminate].
    destruct (Z.eq_dec (Z.of_nat j') j) as [<-|Hne].
    + rewrite Nat2Z.id in Hrow. exists row. split; [exact Hrow|].
      now apply lookup_lt_Some in Hg.
    + apply Hinv. lia.
Qed.

Lemma power_sum_channel_returns (i : Z) :
  0 <= i ->
  (forall j : nat, (j < length weights)%nat ->
     exists row, gains_for_each_pos !! j = Some row
                 /\ (Z.to_nat i < length row)%nat) ->
  is_Some (power_sum_channel weights gains_for_each_pos i).
Proof.
  intros Hi Hrows. unfold power_sum_channel, for_range.
  destruct (for_loop_progress (fun _ (_ : double) => True)
              (fun j g_tmp =>
                 w ← weights !! Z.to_nat j;
                 row ← gains_for_each_pos !! Z.to_nat j;
                 g ← row !! Z.to_nat i;
                 Some (g_tmp + w * g * g)%f64)
              (Z.to_nat (Z.of_nat (length weights) - 0)) 0 F64.zero)
    as (g_tmp & Hloop & _); [exact I| |rewrite Hloop; simpl; eauto].
  intros j acc Hj _.
  destruct (lookup_lt_is_Some_2 weights (Z.to_nat j)) as [w Hw]; [lia|].
  destruct (Hrows (Z.to_nat j)) as (row & Hrow & Hlen); [lia|].
  destruct (lookup_lt_is_Some_2 row (Z.to_nat i) Hlen) as [g Hg].
  rewrite Hw. simpl. rewrite Hrow. simpl. rewrite Hg. simpl. eauto.
Qed.

End PowerSumBounds.

Lemma power_summation_reads (nCh : Z) (weights : list double)
    (gains_for_each_pos : list (list double)) :
  0 < nCh <= INT_MAX ->
  is_Some (power_summation nCh weights gains_for_each_pos) ->
  forall j : nat, (j < length weights)%nat ->
    exists row, gains_for_each_pos !! j = Some row
                /\ nCh <= Z.of_nat (length row).
Proof.
  intros HnCh [pre Hsum] j Hj. unfold power_summation, for_range in Hsum.
  rewrite to_int_small in Hsum by lia.
  assert (Hall : forall i', 0 <= i' < 0 + Z.of_nat (Z.to_nat (nCh - 0)) ->
            is_Some (power_sum_channel weights gains_for_each_pos i')).
  2: { destruct (Hall (nCh - 1)) as [v Hv]; [lia|].
       destruct (power_sum_channel_reads weights gains_for_each_pos
                   (nCh - 1) v ltac:(lia) Hv j Hj)
         as (row & Hrow & Hlen).
       exists row. split; [exact Hrow|lia]. }
  apply (for_loop_invariant
           (fun i (_ : list double) =>
              forall i', 0 <= i' < i ->
                is_Some (power_sum_channel weights gains_for_each_pos i'))
           _ _ _ _ _ Hsum).
  - intros i' Hi'. lia.
  - intros i gains gains' Hi Hinv Hbody i' Hi'.
    destruct (power_sum_channel weights gains_for_each_pos i) as [g|] eqn:Hg;
      [|discriminate].
    destruct (Z.eq_dec i' i) as [->|Hne]; [rewrite Hg; eauto|].
    apply Hinv. lia.
Qed.

Lemma power_summation_returns (nCh : Z) (weights : list double)
    (gains_for_each_pos : list (list double)) :
  0 <= nCh <= INT_MAX ->
  (forall j : nat, (j < length weights)%nat ->
     exists row, gains_for_each_pos !! j = Some row
                 /\ nCh <= Z.of_nat (length row)) ->
  is_Some (power_summation nCh weights gains_for_each_pos).
Proof.
  intros HnCh Hrows. unfold power_summation, for_range.
  rewrite to_int_small by lia.
  destruct (for_loop_progress (fun _ (_ : list double) => True)
              (fun i gains =>
                 g ← power_sum_channel weights gains_for_each_pos i;
                 Some (<[Z.to_nat i := g]> gains))
              (Z.to_nat (nCh - 0)) 0 (replicate (Z.to_nat nCh) F64.zero))
    as (pre & Hloop & _); [exact I| |rewrite Hloop; eauto].
  intros i gains Hi _.
  destruct (power_sum_channel_returns weights gains_for_each_pos i)
    as [g Hg]; [lia| |rewrite Hg; simpl; eauto].
  intros j Hj. destruct (Hrows j Hj) as (row & Hrow & Hlen).
  exists row. split; [exact Hrow|lia].
Qed.

(** X3. The power summation over [nCh] output channels, [0 < nCh <= INT_MAX],
    stays within bounds exactly when the gain calculator has returned, for
    every diverged source, at least [nCh] gains: then it returns, and
    otherwise it reads [gains_for_each_pos[j][i]] beyond the end of a
    vector. *)
Theorem X3_power_summation_bounds (nCh : Z) (weights : list double)
    (gains_for_each_pos : list (list double)) :
  0 < nCh <= INT_MAX ->
  (is_Some (power_summation nCh weights gains_for_each_pos)
   <-> forall j : nat, (j < length weights)%nat ->
         exists row, gains_for_each_pos !! j = Some row
                     /\ nCh <= Z.of_nat (length row)).
Proof.
  intros HnCh. split.
  - now apply power_summation_reads.
  - apply power_summation_returns. lia.
Qed.

Lemma X3_power_summation_bounds_witness :
  let weights := [F64.zero; F64.half; F64.half] in
  0 < 2 <= INT_MAX
  /\ is_Some (power_summation 2 weights
                [[F64.one; F64.one]; [F64.one; F64.zero]; [F64.zero; F64.one]])
  /\ power_summation 2 weights
       [[F64.one; F64.one]; [F64.one]; [F64.zero; F64.one]] = None.
Proof.
  intros weights.
  assert (HnCh : 0 < 2 <= INT_MAX) by (unfold INT_MAX; lia).
  split; [exact HnCh|]. split.
  - apply (X3_power_summation_bounds 2 weights _ HnCh).
    intros [|[|[|j]]] Hj; simpl in Hj; try lia;
      (eexists; split; [reflexivity|simpl; lia]).
  - reflexivity.
Defined.

Section CallReturns.
Context {CL ZE : Type} `{Externals CL ZE}.

(** As many diverged positions as weights: one, or three. *)
Lemma diverged_lengths (divergence : ObjectDivergence) (p : PolarPosition) :
  length (fst (divergedPositionsAndGains divergence p))
  = length (snd (divergedPositionsAndGains divergence p)).
Proof.
  unfold divergedPositionsAndGains.
  now destruct (F64.eqb (value divergence) F64.zero).
Qed.

Lemma frame_gains_returns (st : CAdmPointSourcePanner CL ZE)
    (metadata : ObjectMetadata CL ZE) :
  (forall p, m_nCh st
             <= Z.of_nat (length (CalculateGains
                                    (getLayoutWithoutLFE (m_layout st)) p))) ->
  0 <= m_nCh st <= INT_MAX ->
  is_Some (frame_gains st metadata).
Proof.
  intros Hcalc HnCh. unfold frame_gains.
  destruct (metadata_eq metadata (m_metadata st)); simpl; [eauto|].
  unfold recomputed_gains, power_summed_gains.
  destruct (power_summation_returns (m_nCh st)
              (frame_diverged_gains st metadata)
              (frame_gains_for_each_pos st metadata) HnCh) as [pre Hpre].
  - intros j Hj. unfold frame_diverged_gains in Hj.
    rewrite <- diverged_lengths in Hj.
    unfold frame_gains_for_each_pos.
    destruct (lookup_lt_is_Some_2 _ j Hj) as [pos Hpos].
    eexists. split; [rewrite list_lookup_fmap, Hpos; reflexivity|].
    apply Hcalc.
  - rewrite Hpre. simpl. eauto.
Qed.

Lemma frame_gains_interp (st : CAdmPointSourcePanner CL ZE)
    (metadata : ObjectMetadata CL ZE) (gains : list double) (n : Z) :
  frame_gains st metadata = Some (gains, n) ->
  n = 0 \/ n = interpolationLength (jumpPosition metadata).
Proof.
  intros Hfg.
  apply frame_gains_inv in Hfg as [(_ & _ & ->)|(_ & _ & ->)]; [|now left].
  destruct (flag (jumpPosition metadata) && negb (m_bFirstFrame st)); auto.
Qed.

(** A call on a state whose gain vector has its length returns for a frame
    in the contract. *)
Lemma ProcessAccumul_returns (st : CAdmPointSourcePanner CL ZE) (fr : Frame) :
  (forall p, m_nCh st
             <= Z.of_nat (length (CalculateGains
                                    (getLayoutWithoutLFE (m_layout st)) p))) ->
  (forall l ze g, length (zoneExclusion_handle l ze g) = length g) ->
  0 <= m_nCh st <= INT_MAX ->
  m_nCh st = Z.of_nat (nonLFE_count (channels (m_layout st))) ->
  length (m_gains st) = nonLFE_count (channels (m_layout st)) ->
  frame_in_contract (channels (m_layout st)) fr ->
  is_Some (ProcessAccumul st (fr_metadata fr) (fr_pIn fr) (fr_out fr)
             (fr_nSamples fr) (fr_nOffset fr)).
Proof.
  intros Hcalc Hzone HnCh Hcount Hprev (Hlen & Hwrap & HpIn & Hrows).
  destruct (frame_gains_returns st (fr_metadata fr) Hcalc HnCh)
    as [[gains n] Hfg].
  assert (Hgains : length gains = nonLFE_count (channels (m_layout st))).
  { pose proof Hfg as Hfg'.
    apply frame_gains_inv in Hfg' as [(_ & Hre & _)|(_ & -> & _)];
      [|exact Hprev].
    rewrite (recomputed_gains_length st (fr_metadata fr) gains Hzone HnCh Hre).
    rewrite Hcount. apply Nat2Z.id. }
  destruct Hwrap as (Hoff & HnS & Hw).
  assert (Hn : 0 <= n <= interpolationLength (jumpPosition (fr_metadata fr))).
  { destruct (frame_gains_interp _ _ _ _ Hfg) as [->| ->]; lia. }
  apply (ProcessAccumul_in_bounds st (fr_metadata fr) (fr_pIn fr) (fr_out fr)
           (fr_nSamples fr) (fr_nOffset fr) gains n Hfg).
  - unfold no_wrap. repeat split; lia.
  - lia.
  - lia.
  - intros c Hc. destruct (Hrows c Hc) as (rD & rF & HrD & HrF & HlD & HlF).
    exists rD, rF. repeat split; try assumption; lia.
  - unfold nonLFE_count in Hgains. lia.
  - unfold nonLFE_count in Hprev. lia.
Qed.

End CallReturns.

(** X4. The gain computation of a frame stays within bounds on every state
    and for every metadata, provided [m_nCh] is at most [INT_MAX] and the
    gain calculator returns at least [m_nCh] gains for every position: the
    locals [gains] and [nInterpSamples] are then defined when the channel
    loop starts. *)
Theorem X4_gain_computation_returns {CL ZE : Type} `{Externals CL ZE}
    (st : CAdmPointSourcePanner CL ZE) (metadata : ObjectMetadata CL ZE) :
  (forall p, m_nCh st
             <= Z.of_nat (length (CalculateGains
                                    (getLayoutWithoutLFE (m_layout st)) p))) ->
  0 <= m_nCh st <= INT_MAX ->
  exists gains n,
    frame_gains st metadata = Some (gains, n)
    /\ (n = 0 \/ n = interpolationLength (jumpPosition metadata)).
Proof.
  intros Hcalc HnCh.
  destruct (frame_gains_returns st metadata Hcalc HnCh) as [[gains n] Hfg].
  exists gains, n. split; [exact Hfg|].
  exact (frame_gains_interp _ _ _ _ Hfg).
Qed.

Lemma X4_gain_computation_returns_witness :
  let st := new_panner Fixture.stereo_lfe in
  (forall p, m_nCh st
             <= Z.of_nat (length (CalculateGains
                                    (getLayoutWithoutLFE (m_layout st)) p)))
  /\ 0 <= m_nCh st <= INT_MAX
  /\ is_Some (frame_gains st (Fixture.source 30 true 2)).
Proof.
  intros st.
  assert (HnCh2 : m_nCh st = 2) by reflexivity.
  assert (Hcalc : forall p,
            m_nCh st
            <= Z.of_nat (length (CalculateGains
                                   (getLayoutWithoutLFE (m_layout st)) p))).
  { intros p. rewrite HnCh2. simpl. unfold Fixture.stereo_gains.
    destruct (SFltb F64.zero (azimuth p)); [simpl; lia|].
    destruct (SFltb (azimuth p) F64.zero); simpl; lia. }
  assert (HnCh : 0 <= m_nCh st <= INT_MAX)
    by (rewrite HnCh2; unfold INT_MAX; lia).
  split; [exact Hcalc|]. split; [exact HnCh|].
  destruct (X4_gain_computation_returns st (Fixture.source 30 true 2)
              Hcalc HnCh) as (gains & n & Hfg & _).
  rewrite Hfg. eauto.
Defined.

(** X5. Memory safety of a session: when the gain calculator returns at
    least one gain for each channel that is not LFE and the zone exclusion
    returns as many gains as it is given, a panner constructed for a layout
    of at most [INT_MAX] channels returns from every call of a sequence of
    frames that are all in the contract ([frame_in_contract]): no call
    reads or writes outside [pIn], the buses or the gain vectors. *)
Theorem X5_session_in_bounds {CL ZE : Type} `{Externals CL ZE}
    (targetLayout : Layout) (frames : list Frame) :
  (forall p, Z.of_nat (nonLFE_count (channels targetLayout))
             <= Z.of_nat (length (CalculateGains
                                    (getLayoutWithoutLFE targetLayout) p))) ->
  (forall l ze g, length (zoneExclusion_handle l ze g) = length g) ->
  Z.of_nat (length (channels targetLayout)) <= INT_MAX ->
  Forall (frame_in_contract (channels targetLayout)) frames ->
  is_Some (run (new_panner targetLayout) frames).
Proof.
  intros Hcalc Hzone Hlen.
  assert (Hlt : Z.of_nat (length (channels targetLayout)) < UINT_MOD)
    by (unfold INT_MAX, UINT_MOD in *; lia).
  pose proof (count_nonLFE_spec (channels targetLayout) 0 ltac:(lia) Hlt)
    as Hcount.
  pose proof (nonLFE_count_le (channels targetLayout)) as Hle.
  induction frames as [|fr frames IH] using rev_ind; intros Hall.
  - simpl. eauto.
  - apply Forall_app in Hall as [Hfront Hlast].
    apply Forall_cons_1 in Hlast as [Hfr _].
    destruct (IH Hfront) as [st Hrun].
    rewrite run_snoc, Hrun.
    destruct (run_layout _ _ _ Hrun) as [Hlayout HnCh].
    cbn [new_panner m_layout m_nCh] in Hlayout, HnCh.
    rewrite Hcount, Z.add_0_l in HnCh.
    assert (Hgl : length (m_gains st) = Z.to_nat (m_nCh st)).
    { apply (run_gains_length (new_panner targetLayout) st frames Hzone);
        cbn [new_panner m_nCh m_gains]; try assumption.
      - rewrite Hcount. lia.
      - now rewrite length_replicate. }
    destruct (ProcessAccumul_returns st fr) as [[st' out'] Hcall].
    + intros p. rewrite Hlayout, HnCh. apply Hcalc.
    + exact Hzone.
    + rewrite HnCh. lia.
    + now rewrite Hlayout.
    + rewrite Hgl, HnCh, Hlayout. apply Nat2Z.id.
    + now rewrite Hlayout.
    + rewrite Hcall. eauto.
Qed.

Lemma X5_session_in_bounds_witness :
  let frames :=
    [ {| fr_metadata := Fixture.source (-30) false 0;
         fr_pIn := replicate 4 F32.one; fr_out := Fixture.silence 3 4;
         fr_nSamples := 4; fr_nOffset := 0 |};
      {| fr_metadata := Fixture.source 30 true 2;
         fr_pIn := replicate 4 F32.one; fr_out := Fixture.silence 3 5;
         fr_nSamples := 4; fr_nOffset := 1 |} ] in
  Forall (frame_in_contract (channels Fixture.stereo_lfe)) frames
  /\ is_Some (run (new_panner Fixture.stereo_lfe) frames).
Proof.
  intros frames.
  assert (Hcalc : forall p,
            Z.of_nat (nonLFE_count (channels Fixture.stereo_lfe))
            <= Z.of_nat (length (CalculateGains
                                   (getLayoutWithoutLFE Fixture.stereo_lfe) p))).
  { intros p.
    change (Z.of_nat (nonLFE_count (channels Fixture.stereo_lfe))) with 2.
    cbn [CalculateGains Fixture.externals]. unfold Fixture.stereo_gains.
    destruct (SFltb F64.zero (azimuth p)); [simpl; lia|].
    destruct (SFltb (azimuth p) F64.zero); simpl; lia. }
  assert (Hzone : forall (l : Layout) (ze : unit) (g : list double),
            length (zoneExclusion_handle l ze g) = length g)
    by (intros; reflexivity).
  assert (Hlen : Z.of_nat (length (channels Fixture.stereo_lfe)) <= INT_MAX)
    by (unfold INT_MAX; simpl; lia).
  assert (Hall : Forall (frame_in_contract (channels Fixture.stereo_lfe))
                   frames).
  { repeat constructor; unfold no_wrap, INT_MAX, UINT_MOD; simpl; try lia;
      intros [|[|[|c]]] Hc; simpl in Hc; try lia;
      (eexists _, _; repeat split; simpl; lia). }
  split; [exact Hall|].
  exact (X5_session_in_bounds Fixture.stereo_lfe frames Hcalc Hzone Hlen Hall).
Defined.

(* ===================================================================== *)
(** * Calls that add nothing, and gains that are held *)
(* ===================================================================== *)

Section NoIteration.
Variables (gains prev_gains : list double) (pIn : list float).
Variables (nInterpSamples nSamples nOffset : Z).
Variables (directCoeff diffuseCoeff : float).

Lemma channel_loop_no_iteration (chs : list Channel) :
  nInterpSamples <= 0 -> to_int nSamples <= nInterpSamples ->
  forall (i iCh : nat) (out : Buses),
    channel_loop gains prev_gains pIn nInterpSamples nSamples nOffset
      directCoeff diffuseCoeff chs i iCh out = Some out.
Proof.
  intros Hn HnS.
  induction chs as [|ch rest IH]; intros i iCh out; simpl; [reflexivity|].
  destruct (isLFE ch); [apply IH|].
  unfold process_channel, sample_loops.
  rewrite for_range_empty by lia. simpl.
  rewrite for_range_empty by lia. simpl. apply IH.
Qed.

Lemma channel_loop_all_LFE (chs : list Channel) :
  Forall (fun ch => isLFE ch = true) chs ->
  forall (i iCh : nat) (out : Buses),
    channel_loop gains prev_gains pIn nInterpSamples nSamples nOffset
      directCoeff diffuseCoeff chs i iCh out = Some out.
Proof.
  induction 1 as [|ch rest Hch _ IH]; intros i iCh out; simpl; [reflexivity|].
  rewrite Hch. apply IH.
Qed.

End NoIteration.

Lemma to_int_nonpositive (u : Z) :
  u = 0 \/ INT_MAX < u < UINT_MOD -> to_int u <= 0.
Proof.
  intros [->|Hu]; [now vm_compute|].
  unfold to_int, INT_MAX, UINT_MOD in *.
  rewrite Z.mod_small by lia.
  destruct (Z.leb_spec u (2 ^ 31 - 1)); lia.
Qed.

(** X6. A call with the interpolation length 0 and with [nSamples] either 0
    or above [INT_MAX] (so that [(int)nSamples] is negative) runs no
    iteration of either loop: whatever the sizes of [pIn], of the buses and
    of the gain vectors, it returns, it leaves both buses as they are, and it
    still commits the target gains and the metadata and clears
    [m_bFirstFrame]. *)
Theorem X6_call_without_iteration {CL ZE : Type} `{Externals CL ZE}
    (st : CAdmPointSourcePanner CL ZE) (metadata : ObjectMetadata CL ZE)
    (pIn : list float) (out : Buses) (nSamples nOffset : Z)
    (gains : list double) :
  frame_gains st metadata = Some (gains, 0) ->
  nSamples = 0 \/ INT_MAX < nSamples < UINT_MOD ->
  ProcessAccumul st metadata pIn out nSamples nOffset
  = Some ({| m_layout := m_layout st; m_nCh := m_nCh st; m_gains := gains;
             m_metadata := metadata; m_bFirstFrame := false |}, out).
Proof.
  intros Hfg HnS. unfold ProcessAccumul. rewrite Hfg. simpl.
  rewrite channel_loop_no_iteration;
    [reflexivity | lia | now apply to_int_nonpositive].
Qed.

Lemma X6_call_without_iteration_witness :
  let st := new_panner Fixture.stereo in
  let metadata := Fixture.source 30 true 2 in
  let nSamples := 2 ^ 31 in
  frame_gains st metadata = Some ([F64.one; F64.zero], 0)
  /\ (nSamples = 0 \/ INT_MAX < nSamples < UINT_MOD)
  /\ snd <$> ProcessAccumul st metadata [] (Fixture.silence 0 0) nSamples 0
     = Some (Fixture.silence 0 0).
Proof.
  intros st metadata nSamples.
  assert (Hfg : frame_gains st metadata = Some ([F64.one; F64.zero], 0))
    by reflexivity.
  assert (HnS : nSamples = 0 \/ INT_MAX < nSamples < UINT_MOD)
    by (right; unfold nSamples, INT_MAX, UINT_MOD; lia).
  split; [exact Hfg|]. split; [exact HnS|].
  now rewrite (X6_call_without_iteration st metadata [] (Fixture.silence 0 0)
                 nSamples 0 _ Hfg HnS).
Defined.

Lemma power_summation_no_channel (weights : list double)
    (gains_for_each_pos : list (list double)) :
  power_summation 0 weights gains_for_each_pos = Some [].
Proof. reflexivity. Qed.

(** X7. A layout without a channel that is not LFE (all LFE, or empty; fewer
    than 2^32 channels): in every state reached from the constructor, every
    call returns, for any metadata, any input and any buses, whatever the
    collaborators return, and leaves both buses as they are. *)
Theorem X7_layout_without_speakers {CL ZE : Type} `{Externals CL ZE}
    (targetLayout : Layout) (frames : list Frame)
    (st : CAdmPointSourcePanner CL ZE) (metadata : ObjectMetadata CL ZE)
    (pIn : list float) (out : Buses) (nSamples nOffset : Z) :
  Forall (fun ch => isLFE ch = true) (channels targetLayout) ->
  Z.of_nat (length (channels targetLayout)) < UINT_MOD ->
  run (new_panner targetLayout) frames = Some st ->
  exists st',
    ProcessAccumul st metadata pIn out nSamples nOffset = Some (st', out).
Proof.
  intros Hlfe Hlen Hrun.
  destruct (run_layout _ _ _ Hrun) as [Hlayout HnCh].
  cbn [new_panner m_layout m_nCh] in Hlayout, HnCh.
  rewrite count_nonLFE_spec, Z.add_0_l in HnCh by lia.
  assert (Hzero : nonLFE_count (channels targetLayout) = 0%nat).
  { unfold nonLFE_count. clear -Hlfe.
    induction Hlfe as [|ch rest Hch _ IH]; simpl; [reflexivity|].
    now rewrite Hch. }
  rewrite Hzero in HnCh. simpl in HnCh.
  assert (Hfg : is_Some (frame_gains st metadata)).
  { unfold frame_gains.
    destruct (metadata_eq metadata (m_metadata st)); simpl; [eauto|].
    unfold recomputed_gains, power_summed_gains.
    rewrite HnCh, power_summation_no_channel. simpl. eauto. }
  destruct Hfg as [[gains n] Hfg].
  unfold ProcessAccumul. rewrite Hfg. simpl.
  rewrite channel_loop_all_LFE by now rewrite Hlayout.
  simpl. eauto.
Qed.

Lemma X7_layout_without_speakers_witness :
  let l := {| channels := [Fixture.subwoofer; Fixture.subwoofer] |} in
  Forall (fun ch => isLFE ch = true) (channels l)
  /\ Z.of_nat (length (channels l)) < UINT_MOD
  /\ exists st',
       ProcessAccumul (new_panner l) (Fixture.source 30 true 2)
         (replicate 4 F32.one) (Fixture.silence 0 0) 4 0
       = Some (st', Fixture.silence 0 0).
Proof.
  intros l.
  assert (Hlfe : Forall (fun ch => isLFE ch = true) (channels l))
    by (repeat constructor).
  assert (Hlen : Z.of_nat (length (channels l)) < UINT_MOD)
    by (unfold UINT_MOD; simpl; lia).
  split; [exact Hlfe|]. split; [exact Hlen|].
  exact (X7_layout_without_speakers l [] (new_panner l)
           (Fixture.source 30 true 2) (replicate 4 F32.one)
           (Fixture.silence 0 0) 4 0 Hlfe Hlen eq_refl).
Defined.

Lemma run_gains_held {CL ZE : Type} `{Externals CL ZE}
    (frames : list Frame) :
  forall st st' : CAdmPointSourcePanner CL ZE,
    run st frames = Some st' ->
    metadata_unchanged (m_metadata st) frames = true ->
    m_gains st' = m_gains st.
Proof.
  induction frames as [|fr rest IH]; intros st st' Hrun Hsame; simpl in *.
  - now injection Hrun as <-.
  - apply andb_prop in Hsame as [Heq Hrest].
    destruct (ProcessAccumul st _ _ _ _ _) as [[st1 out1]|] eqn:Hcall;
      [|discriminate].
    apply ProcessAccumul_inv in Hcall as (g & n & Hfg & _ & ->).
    pose proof Hfg as Hfg'.
    apply frame_gains_inv in Hfg' as [(Hne & _)|(_ & -> & ->)];
      [congruence|].
    exact (IH _ _ Hrun Hrest).
Qed.

(** X8. The gains are held while the metadata does not change: over a
    sequence of calls in which the metadata of every frame compares equal to
    that of the frame before it (the first to the cached metadata), every
    call takes the reuse path, and [m_gains] after the sequence is [m_gains]
    before it. *)
Theorem X8_gains_held {CL ZE : Type} `{Externals CL ZE}
    (frames : list Frame) (st st' : CAdmPointSourcePanner CL ZE) :
  run st frames = Some st' ->
  metadata_unchanged (m_metadata st) frames = true ->
  m_gains st' = m_gains st.
Proof. apply run_gains_held. Qed.

Lemma X8_gains_held_witness :
  let st :=
    {| m_layout := Fixture.stereo; m_nCh := 2;
       m_gains := [F64.zero; F64.one];
       m_metadata := Fixture.source (-30) false 0;
       m_bFirstFrame := false |} in
  let same k :=
    {| fr_metadata := Fixture.source (-30) false 0;
       fr_pIn := replicate k F32.one; fr_out := Fixture.silence 2 k;
       fr_nSamples := Z.of_nat k; fr_nOffset := 0 |} in
  let frames := [same 2%nat; same 3%nat] in
  exists st',
    run st frames = Some st'
    /\ metadata_unchanged (m_metadata st) frames = true
    /\ m_gains st' = [F64.zero; F64.one].
Proof.
  intros st same frames.
  destruct (run st frames) as [st'|] eqn:Hrun;
    [|vm_compute in Hrun; discriminate].
  assert (Hsame : metadata_unchanged (m_metadata st) frames = true)
    by reflexivity.
  exists st'. split; [reflexivity|]. split; [exact Hsame|].
  exact (X8_gains_held frames st st' Hrun Hsame).
Defined.

(** X9. A fresh instance keeps its zero gains until the metadata differs from
    the default: [m_metadata] is default-constructed and [m_gains] all zero, so
    over frames whose metadata compares equal to a default-constructed
    [ObjectMetadata] the gain calculator is never consulted, and every gain
    is still zero after the sequence. *)
Theorem X9_default_metadata_keeps_zero_gains {CL ZE : Type}
    `{Externals CL ZE} (targetLayout : Layout) (frames : list Frame)
    (st' : CAdmPointSourcePanner CL ZE) :
  run (new_panner targetLayout) frames = Some st' ->
  metadata_unchanged default_metadata frames = true ->
  Forall (fun g => g = F64.zero) (m_gains st').
Proof.
  intros Hrun Hsame.
  rewrite (run_gains_held frames (new_panner targetLayout) st' Hrun Hsame).
  cbn [new_panner m_gains]. now apply Forall_replicate.
Qed.

Lemma X9_default_metadata_keeps_zero_gains_witness :
  let quiet k :=
    {| fr_metadata := Fixture.source 0 false 0;
       fr_pIn := replicate k F32.one; fr_out := Fixture.silence 3 k;
       fr_nSamples := Z.of_nat k; fr_nOffset := 0 |} in
  let frames := [quiet 2%nat; quiet 3%nat] in
  exists st',
    run (new_panner Fixture.stereo_lfe) frames = Some st'
    /\ metadata_unchanged default_metadata frames = true
    /\ Forall (fun g => g = F64.zero) (m_gains st').
Proof.
  intros quiet frames.
  destruct (run (new_panner Fixture.stereo_lfe) frames) as [st'|] eqn:Hrun;
    [|vm_compute in Hrun; discriminate].
  assert (Hsame : metadata_unchanged default_metadata frames = true)
    by reflexivity.
  exists st'. split; [reflexivity|]. split; [exact Hsame|].
  exact (X9_default_metadata_keeps_zero_gains Fixture.stereo_lfe frames st'
           Hrun Hsame).
Defined.

(* ===================================================================== *)
(** * Numbers out of range *)
(* ===================================================================== *)

Lemma F32_mul_nan_r (a : float) : (a * S754_nan)%f32 = S754_nan.
Proof. now destruct a. Qed.

Lemma F32_add_nan_r (a : float) : (a + S754_nan)%f32 = S754_nan.
Proof. now destruct a. Qed.

Lemma F64_mul_nan_l (a : double) : (S754_nan * a)%f64 = S754_nan.
Proof. reflexivity. Qed.

Lemma F64_add_nan_r (a : double) : (a + S754_nan)%f64 = S754_nan.
Proof. now destruct a. Qed.

(** [sqrt] of a number below zero, or of a NaN, is a NaN. *)
Lemma sqrt_of_negative (d : double) :
  SFltb d F64.zero = true \/ d = S754_nan -> F64.sqrt d = S754_nan.
Proof.
  intros [Hd| ->]; [|reflexivity].
  destruct d as [s|s| |s m e]; try destruct s; cbv in Hd;
    try discriminate Hd; reflexivity.
Qed.

(** Rounding keeps the sign it is given. *)
Lemma binary_round_aux_sign (prec emax : Z) (sx : bool) (mx ex : Z)
    (lx : location) :
  match binary_round_aux prec emax sx mx ex lx with
  | S754_zero s | S754_infinity s | S754_finite s _ _ => s = sx
  | S754_nan => True
  end.
Proof.
  unfold binary_round_aux.
  destruct (shr_fexp prec emax mx ex lx) as [mrs' e'].
  destruct (shr_fexp prec emax _ e' loc_Exact) as [mrs'' e''].
  destruct (shr_m mrs''); [reflexivity| |exact I].
  now destruct (e'' <=? emax - prec).
Qed.

(** [sqrt] returns nothing below zero. *)
Lemma sqrt_not_negative (d : double) : SFltb (F64.sqrt d) F64.zero = false.
Proof.
  destruct d as [s|s| |s m e]; try destruct s; try reflexivity.
  unfold F64.sqrt, SFsqrt.
  destruct (SFsqrt_core_binary F64.prec F64.emax (Z.pos m) e) as [[mz ez] lz].
  pose proof (binary_round_aux_sign F64.prec F64.emax false mz ez lz) as Hs.
  destruct (binary_round_aux F64.prec F64.emax false mz ez lz);
    try subst; reflexivity.
Qed.

Lemma diffuseCoefficient_nan (d : double) :
  SFltb d F64.zero = true \/ d = S754_nan -> diffuseCoefficient d = S754_nan.
Proof.
  intros Hd. unfold diffuseCoefficient. now rewrite sqrt_of_negative.
Qed.

Section OutOfRange.
Context {CL ZE : Type} `{Externals CL ZE}.

(** The gain vectors have the entries a call reads when it returns. *)
Lemma ProcessAccumul_gain_entries (st st' : CAdmPointSourcePanner CL ZE)
    (metadata : ObjectMetadata CL ZE) (pIn : list float) (out0 out : Buses)
    (nSamples nOffset : Z) (gains : list double) (n : Z) (i : nat)
    (ch : Channel) (s : Z) :
  ProcessAccumul st metadata pIn out0 nSamples nOffset = Some (st', out) ->
  frame_gains st metadata = Some (gains, n) ->
  no_wrap n nSamples nOffset ->
  channels (m_layout st) !! i = Some ch -> isLFE ch = false ->
  0 <= s < Z.max n nSamples ->
  exists g0 g1,
    (0 < n -> m_gains st !! gain_index (channels (m_layout st)) i = Some g0)
    /\ gains !! gain_index (channels (m_layout st)) i = Some g1.
Proof.
  intros Hcall Hfg Hwrap Hch Hlfe Hs.
  destruct (ProcessAccumul_rows _ _ _ _ _ _ _ _ _ _ Hcall Hfg Hwrap)
    as (_ & _ & Hread).
  destruct (Hread i ch Hch Hlfe) as (Hinterp & Hplain & _).
  assert (Hg1 : exists g1,
            gains !! gain_index (channels (m_layout st)) i = Some g1).
  { destruct (Z.ltb_spec s n).
    - destruct (Hinterp s) as [v Hv]; [lia|].
      apply interp_sampleData_Some in Hv as (? & g & ? & _ & _ & Hg & _).
      eauto.
    - destruct (Hplain s) as [v Hv]; [lia|].
      apply plain_sampleData_Some in Hv as (? & g & _ & _ & Hg & _).
      eauto. }
  destruct Hg1 as [g1 Hg1].
  destruct (Z.ltb_spec 0 n).
  - destruct (Hinterp 0) as [v Hv]; [lia|].
    apply interp_sampleData_Some in Hv as (? & ? & gp & _ & _ & _ & Hgp & _).
    exists gp, g1. auto.
  - exists F64.zero, g1. split; [lia|exact Hg1].
Qed.

Lemma power_summed_gains_formula (st : CAdmPointSourcePanner CL ZE)
    (metadata : ObjectMetadata CL ZE) (pre : list double) (i : nat)
    (g : double) :
  0 <= m_nCh st <= INT_MAX ->
  power_summed_gains st metadata = Some pre ->
  pre !! i = Some g ->
  g = power_sum_formula (frame_diverged_gains st metadata)
        (frame_gains_for_each_pos st metadata) i.
Proof.
  intros HnCh Hpre Hg. unfold power_summed_gains in Hpre.
  apply power_summation_formula in Hpre as [Hlen Hall]; [|exact HnCh].
  apply lookup_lt_Some in Hg as Hi. rewrite Hlen in Hi.
  rewrite (Hall i Hi) in Hg. now injection Hg.
Qed.

Lemma diverged_gains_nan (divergence : ObjectDivergence)
    (p : PolarPosition) :
  value divergence = S754_nan ->
  snd (divergedPositionsAndGains divergence p)
  = [S754_nan; S754_nan; S754_nan]
  /\ length (fst (divergedPositionsAndGains divergence p)) = 3%nat.
Proof.
  intros Hx. unfold divergedPositionsAndGains. rewrite Hx. now split.
Qed.

End OutOfRange.

(** X10. The diffuseness is not checked: when [metadata.diffuse] is below
    zero, or a NaN, [diffuseCoefficient] is a NaN, and a call that returns
    leaves a NaN in every slot it visits of the diffuse row of every channel
    that is not LFE, whatever the input, the gains and the slot held. *)
Theorem X10_negative_diffuse {CL ZE : Type} `{Externals CL ZE}
    (st st' : CAdmPointSourcePanner CL ZE) (metadata : ObjectMetadata CL ZE)
    (pIn : list float) (out0 out : Buses) (nSamples nOffset : Z)
    (gains : list double) (n : Z) (i : nat) (ch : Channel) :
  ProcessAccumul st metadata pIn out0 nSamples nOffset = Some (st', out) ->
  frame_gains st metadata = Some (gains, n) ->
  no_wrap n nSamples nOffset ->
  channels (m_layout st) !! i = Some ch -> isLFE ch = false ->
  SFltb (diffuse metadata) F64.zero = true \/ diffuse metadata = S754_nan ->
  forall s, 0 <= s < Z.max n nSamples ->
    exists rowF',
      ppDiffuse out !! i = Some rowF'
      /\ rowF' !! Z.to_nat (s + nOffset) = Some S754_nan.
Proof.
  intros Hcall Hfg Hwrap Hch Hlfe Hd s Hs.
  destruct (ProcessAccumul_gain_entries _ _ _ _ _ _ _ _ _ _ _ _ s
              Hcall Hfg Hwrap Hch Hlfe Hs) as (g0 & g1 & Hg0 & Hg1).
  destruct (ProcessAccumul_slots _ _ _ _ _ _ _ _ _ _ _ _ _ _
              Hcall Hfg Hwrap Hch Hlfe Hg0 Hg1 s Hs)
    as (sample & rowD & rowD' & oldD & rowF & rowF' & oldF
        & _ & _ & _ & _ & _ & _ & HrowF' & _ & Hslot).
  exists rowF'. split; [exact HrowF'|].
  rewrite (diffuseCoefficient_nan _ Hd), F32_mul_nan_r, F32_add_nan_r
    in Hslot.
  exact Hslot.
Qed.

Lemma X10_negative_diffuse_witness :
  let st := new_panner Fixture.stereo in
  let metadata := with_diffuse (- F64.one)%f64 (Fixture.source 30 false 0) in
  exists out rowF',
    snd <$> ProcessAccumul st metadata [F32.one; F32.one]
              (Fixture.silence 2 2) 2 0 = Some out
    /\ SFltb (diffuse metadata) F64.zero = true
    /\ ppDiffuse out !! 1%nat = Some rowF'
    /\ rowF' !! 1%nat = Some S754_nan.
Proof.
  intros st metadata.
  destruct (ProcessAccumul st metadata [F32.one; F32.one]
              (Fixture.silence 2 2) 2 0) as [[st' out]|] eqn:Hcall;
    [|vm_compute in Hcall; discriminate].
  assert (Hfg : frame_gains st metadata = Some ([F64.one; F64.zero], 0))
    by reflexivity.
  assert (Hwrap : no_wrap 0 2 0) by (unfold no_wrap, INT_MAX, UINT_MOD; lia).
  assert (Hd : SFltb (diffuse metadata) F64.zero = true) by reflexivity.
  destruct (X10_negative_diffuse st st' metadata [F32.one; F32.one]
              (Fixture.silence 2 2) out 2 0 [F64.one; F64.zero] 0 1
              Fixture.speaker Hcall Hfg Hwrap eq_refl eq_refl (or_introl Hd)
              1 ltac:(lia)) as (rowF' & HrowF' & Hslot).
  exists out, rowF'. auto.
Defined.

(** X11. The power summation returns no gain below zero: every entry of the
    vector handed to the zone exclusion is a square root, so it does not
    compare less than zero (it may be a NaN), whatever the weights of the
    divergence and whatever the gain calculator returns. *)
Theorem X11_power_summed_gains_not_negative {CL ZE : Type} `{Externals CL ZE}
    (st : CAdmPointSourcePanner CL ZE) (metadata : ObjectMetadata CL ZE)
    (pre : list double) (i : nat) (g : double) :
  0 <= m_nCh st <= INT_MAX ->
  power_summed_gains st metadata = Some pre ->
  pre !! i = Some g ->
  SFltb g F64.zero = false.
Proof.
  intros HnCh Hpre Hg.
  rewrite (power_summed_gains_formula st metadata pre i g HnCh Hpre Hg).
  apply sqrt_not_negative.
Qed.

Lemma X11_power_summed_gains_not_negative_witness :
  let st := new_panner Fixture.stereo in
  let metadata :=
    with_divergence Fixture.f64_0_64 (Fixture.source 30 false 0) in
  exists pre g,
    power_summed_gains st metadata = Some pre
    /\ pre !! 0%nat = Some g /\ SFltb g F64.zero = false.
Proof.
  intros st metadata.
  destruct (power_summed_gains st metadata) as [pre|] eqn:Hpre;
    [|vm_compute in Hpre; discriminate].
  destruct (pre !! 0%nat) as [g|] eqn:Hg;
    [|vm_compute in Hpre; injection Hpre as <-; discriminate].
  assert (HnCh : 0 <= m_nCh st <= INT_MAX)
    by (change (m_nCh st) with 2; unfold INT_MAX; lia).
  exists pre, g. split; [reflexivity|]. split; [exact Hg|].
  exact (X11_power_summed_gains_not_negative st metadata pre 0 g
           HnCh Hpre Hg).
Defined.

(** X12. The divergence is not checked: when [objectDivergence.value] is a
    NaN, the test [x == 0.] fails, the three weights are NaN, and every gain
    of the power summation is a NaN, whatever the gain calculator returns. *)
Theorem X12_nan_divergence {CL ZE : Type} `{Externals CL ZE}
    (st : CAdmPointSourcePanner CL ZE) (metadata : ObjectMetadata CL ZE)
    (pre : list double) (i : nat) (g : double) :
  value (objectDivergence metadata) = S754_nan ->
  0 <= m_nCh st <= INT_MAX ->
  power_summed_gains st metadata = Some pre ->
  pre !! i = Some g ->
  g = S754_nan.
Proof.
  intros Hx HnCh Hpre Hg.
  rewrite (power_summed_gains_formula st metadata pre i g HnCh Hpre Hg).
  unfold frame_diverged_gains, frame_gains_for_each_pos.
  destruct (diverged_gains_nan (objectDivergence metadata)
              (frame_direction st metadata) Hx) as [-> Hlen].
  destruct (fst (divergedPositionsAndGains _ _)) as [|a [|b [|c [|]]]];
    try discriminate Hlen.
  unfold power_sum_formula. simpl.
  now rewrite !F64_mul_nan_l, !F64_add_nan_r.
Qed.

Lemma X12_nan_divergence_witness :
  let st := new_panner Fixture.stereo in
  let metadata := with_divergence S754_nan (Fixture.source 30 false 0) in
  value (objectDivergence metadata) = S754_nan
  /\ power_summed_gains st metadata = Some [S754_nan; S754_nan].
Proof.
  intros st metadata.
  assert (Hx : value (objectDivergence metadata) = S754_nan) by reflexivity.
  assert (HnCh : 0 <= m_nCh st <= INT_MAX)
    by (change (m_nCh st) with 2; unfold INT_MAX; lia).
  split; [exact Hx|].
  destruct (power_summed_gains st metadata) as [pre|] eqn:Hpre;
    [|vm_compute in Hpre; discriminate].
  pose proof (fun i g => X12_nan_divergence st metadata pre i g Hx HnCh Hpre)
    as Hall.
  assert (Hlen : length pre = 2%nat)
    by (vm_compute in Hpre; now injection Hpre as <-).
  destruct pre as [|g0 [|g1 [|]]]; try discriminate Hlen.
  now rewrite (Hall 0%nat g0 eq_refl), (Hall 1%nat g1 eq_refl).
Defined.

(* ===================================================================== *)
(** * Several objects on the same buses *)
(* ===================================================================== *)

Lemma channel_row_after_lookup (gains prev_gains : list double)
    (pIn : list float) (n nSamples nOffset : Z) (coeff : float)
    (chs : list Channel) (c k : nat) (row : list float) (old : float) :
  row !! k = Some old ->
  channel_row_after gains prev_gains pIn n nSamples nOffset coeff chs 0 c row
    !! k
  = Some (add_contribution old
            (channel_slot_contribution gains prev_gains pIn n nSamples
               nOffset coeff chs c k)).
Proof.
  intros Hold. unfold channel_row_after, channel_slot_contribution.
  destruct (chs !! c) as [ch|]; [|exact Hold].
  destruct (isLFE ch); [exact Hold|].
  now rewrite (row_after_lookup _ _ _ _ _ _ _ _ _ _ _ Hold).
Qed.

(** X13. Two calls in a row on the same buses, by any two panner instances
    (two objects of a scene) with their own metadata, input, [nSamples] and
    [nOffset]: when both return, every slot of every row of the direct bus
    holds what it held before, plus what the first call contributes to that
    slot (nothing for a row of an LFE channel or a slot outside its loops),
    plus what the second call contributes, added in that order; and the same
    on the diffuse bus. *)
Theorem X13_two_calls_accumulate {CL ZE : Type} `{Externals CL ZE}
    (stA stA' stB stB' : CAdmPointSourcePanner CL ZE)
    (mdA mdB : ObjectMetadata CL ZE) (pInA pInB : list float)
    (out0 out1 out2 : Buses) (nSamplesA nOffsetA nSamplesB nOffsetB : Z)
    (gainsA gainsB : list double) (nA nB : Z) :
  ProcessAccumul stA mdA pInA out0 nSamplesA nOffsetA = Some (stA', out1) ->
  ProcessAccumul stB mdB pInB out1 nSamplesB nOffsetB = Some (stB', out2) ->
  frame_gains stA mdA = Some (gainsA, nA) ->
  frame_gains stB mdB = Some (gainsB, nB) ->
  no_wrap nA nSamplesA nOffsetA -> no_wrap nB nSamplesB nOffsetB ->
  let contribution st md gains pIn n nSamples nOffset coeff c k :=
    channel_slot_contribution gains (m_gains st) pIn n nSamples nOffset
      (coeff (diffuse md)) (channels (m_layout st)) c k in
  forall (c k : nat),
    (forall row old,
       ppDirect out0 !! c = Some row -> row !! k = Some old ->
       exists row2,
         ppDirect out2 !! c = Some row2
         /\ row2 !! k
            = Some (add_contribution
                      (add_contribution old
                         (contribution stA mdA gainsA pInA nA nSamplesA
                            nOffsetA directCoefficient c k))
                      (contribution stB mdB gainsB pInB nB nSamplesB
                         nOffsetB directCoefficient c k)))
    /\ (forall row old,
          ppDiffuse out0 !! c = Some row -> row !! k = Some old ->
          exists row2,
            ppDiffuse out2 !! c = Some row2
            /\ row2 !! k
               = Some (add_contribution
                         (add_contribution old
                            (contribution stA mdA gainsA pInA nA nSamplesA
                               nOffsetA diffuseCoefficient c k))
                         (contribution stB mdB gainsB pInB nB nSamplesB
                            nOffsetB diffuseCoefficient c k))).
Proof.
  intros HcallA HcallB HfgA HfgB HwrapA HwrapB contribution c k.
  destruct (ProcessAccumul_rows _ _ _ _ _ _ _ _ _ _ HcallA HfgA HwrapA)
    as (HDA & HFA & _).
  destruct (ProcessAccumul_rows _ _ _ _ _ _ _ _ _ _ HcallB HfgB HwrapB)
    as (HDB & HFB & _).
  split; intros row old Hrow Hold.
  - eexists. split; [exact (HDB c _ (HDA c row Hrow))|].
    erewrite channel_row_after_lookup; [reflexivity|].
    now apply channel_row_after_lookup.
  - eexists. split; [exact (HFB c _ (HFA c row Hrow))|].
    erewrite channel_row_after_lookup; [reflexivity|].
    now apply channel_row_after_lookup.
Qed.

Lemma X13_two_calls_accumulate_witness :
  let left := Fixture.source 30 false 0 in
  let right := Fixture.source (-30) false 0 in
  let st := new_panner Fixture.stereo_lfe in
  let pIn := [F32.one; F32.one] in
  exists stA' out1 stB' out2 row2,
    ProcessAccumul st left pIn (Fixture.silence 3 2) 2 0 = Some (stA', out1)
    /\ ProcessAccumul st right pIn out1 2 0 = Some (stB', out2)
    /\ ppDirect out2 !! 0%nat = Some row2
    /\ row2 !! 1%nat = Some F32.one.
Proof.
  intros left right st pIn.
  destruct (ProcessAccumul st left pIn (Fixture.silence 3 2) 2 0)
    as [[stA' out1]|] eqn:HcallA; [|vm_compute in HcallA; discriminate].
  pose proof HcallA as Hout1. vm_compute in Hout1.
  injection Hout1 as _ Hout1.
  destruct (ProcessAccumul st right pIn out1 2 0)
    as [[stB' out2]|] eqn:HcallB;
    [|rewrite <- Hout1 in HcallB; vm_compute in HcallB; discriminate].
  assert (HfgA : frame_gains st left = Some ([F64.one; F64.zero], 0))
    by reflexivity.
  assert (HfgB : frame_gains st right = Some ([F64.zero; F64.one], 0))
    by reflexivity.
  assert (Hwrap : no_wrap 0 2 0) by (unfold no_wrap, INT_MAX, UINT_MOD; lia).
  destruct (X13_two_calls_accumulate st stA' st stB' left right pIn pIn
              (Fixture.silence 3 2) out1 out2 2 0 2 0 _ _ 0 0
              HcallA HcallB HfgA HfgB Hwrap Hwrap 0%nat 1%nat)
    as [HD _].
  destruct (HD [F32.zero; F32.zero] F32.zero eq_refl eq_refl)
    as (row2 & Hrow2 & Hslot).
  exists stA', out1, stB', out2, row2.
  split; [reflexivity|]. split; [exact HcallB|]. split; [exact Hrow2|].
  rewrite Hslot. vm_compute. reflexivity.
Defined.
